(** * poc_binance_V4: interval codec, paginated kline download, Point of Control

    A shallow embedding of [src/Binance/Python/poc_binance_V4.py].

    - Python [int] is unbounded: [Z].
    - Python [str] is a sequence of code points; the model covers the code
      points 0..255, one [ascii] per code point.
    - Exceptions are values of [exn]; a call that can raise returns a
      [result].
    - The HTTP endpoint is a function of the exchanges made so far and of the
      request; every call is recorded in the [World].
    - The date functions of the Python library depend on the platform and
      on the time zone of the machine: they are parameters, with what they
      raise.
    - [float64] quantities (close price, volume, histogram and POC) are
      modelled by the rational numbers they denote, with exact arithmetic:
      rounding, overflow and NaN are outside the model. *)

From Stdlib Require Import ZArith List String Ascii Bool Lia QArith Qabs Qround Lqa.
From Stdlib Require Import Sorted.
Import ListNotations.

Local Open Scope string_scope.
Local Open Scope list_scope.
Local Open Scope Z_scope.

(** ** Exceptions and results *)

(** The two messages built by [parse_interval_to_ms] (the interpolated
    values are kept, the text is not) and those of the libraries. *)
Inductive ValueErrorMsg : Type :=
| InvalidInterval (interval : string)
    (* f"Intervalo de tiempo invalido: {interval}" *)
| UnsupportedUnit (unit : ascii) (interval : string)
    (* f"Unidad de intervalo no soportada: '{unit}' en '{interval}'" *)
| HistogramBins
    (* numpy: "`bins` must be positive, when an integer" *)
| YearOutOfRange
    (* datetime: "year 11476 is out of range" *).

(** What [requests.get], [raise_for_status] and [response.json] can raise:
    all are subclasses of [requests.exceptions.RequestException]. *)
Inductive RequestFailure : Type :=
| ConnectionFailure
| HTTPError (status : Z)
| InvalidJSON.

Inductive exn : Type :=
| ValueError (msg : ValueErrorMsg)
| IndexError
| OverflowError
| OSError
| RequestException (why : RequestFailure).

Inductive result (A : Type) : Type :=
| Ok (a : A)
| Raise (e : exn).
Arguments Ok {A} a.
Arguments Raise {A} e.

Definition bind {A B} (r : result A) (k : A -> result B) : result B :=
  match r with
  | Ok a => k a
  | Raise e => Raise e
  end.

Notation "x <- r ;; k" := (bind r (fun x => k))
  (at level 61, r at next level, right associativity).

(** ** Python strings *)

Module PyStr.

(** [s[-1]]: the last character, [IndexError] on the empty string. *)
Fixpoint last_char (s : string) : result ascii :=
  match s with
  | EmptyString => Raise IndexError
  | String c EmptyString => Ok c
  | String _ s' => last_char s'
  end.

(** [s[:-1]]: everything but the last character; the empty string for the
    empty string (slices never raise). *)
Fixpoint but_last (s : string) : string :=
  match s with
  | EmptyString => EmptyString
  | String _ EmptyString => EmptyString
  | String c s' => String c (but_last s')
  end.

Definition code (c : ascii) : Z := Z.of_N (N_of_ascii c).

(** CPython's [Py_ISSPACE]: tab, LF, VT, FF, CR and space. *)
Definition Py_ISSPACE (c : ascii) : bool :=
  ((9 <=? code c) && (code c <=? 13)) || (code c =? 32).

(** [Py_UNICODE_ISSPACE] on the code points 127..255: NEL and NBSP. *)
Definition Py_UNICODE_ISSPACE_high (c : ascii) : bool :=
  (code c =? 133) || (code c =? 160).

Definition digit_value (c : ascii) : option Z :=
  if (48 <=? code c) && (code c <=? 57) then Some (code c - 48) else None.

Fixpoint is_ascii (s : string) : bool :=
  match s with
  | EmptyString => true
  | String c s' => (code c <? 128) && is_ascii s'
  end.

(** [_PyUnicode_TransformDecimalAndSpaceToASCII]: an ASCII string is kept;
    otherwise code points below 127 are kept, Unicode spaces become a
    space, and the first other code point (none of 127..255 is a decimal
    digit) becomes ['?'] and ends the output. *)
Fixpoint transform_chars (s : string) : string :=
  match s with
  | EmptyString => EmptyString
  | String c s' =>
      if code c <? 127 then String c (transform_chars s')
      else if Py_UNICODE_ISSPACE_high c then String " " (transform_chars s')
      else String "?" EmptyString
  end.

Definition transform_decimal_and_space (s : string) : string :=
  if is_ascii s then s else transform_chars s.

Fixpoint skip_spaces (s : string) : string :=
  match s with
  | String c s' => if Py_ISSPACE c then skip_spaces s' else s
  | EmptyString => s
  end.

(** The digit scan of [PyLong_FromString] in base 10: digits with single
    underscores between them; [prev_us] tells that the previous character
    was an underscore. Returns the value, the number of digits read
    (underscores are not counted, leading zeros are) and the unread rest. *)
Fixpoint scan_digits (prev_us : bool) (acc digits : Z) (s : string)
  : option (Z * Z * string) :=
  match s with
  | EmptyString => if prev_us then None else Some (acc, digits, s)
  | String c s' =>
      match digit_value c with
      | Some d => scan_digits false (10 * acc + d) (digits + 1) s'
      | None =>
          if Ascii.eqb c "_"
          then (if prev_us then None else scan_digits true acc digits s')
          else (if prev_us then None else Some (acc, digits, s))
      end
  end.

(** [sys.int_info.default_max_str_digits]: the longest decimal text that
    [int] converts. The program leaves the interpreter's setting alone. *)
Definition int_max_str_digits : Z := 4300.

Definition starts_with_digit (s : string) : bool :=
  match s with
  | String c _ => match digit_value c with Some _ => true | None => false end
  | EmptyString => false
  end.

(** [PyLong_FromString(s, 10)] followed by the check that the whole text
    was read: leading spaces, an optional sign, the digits, trailing
    spaces. A text of more than [int_max_str_digits] digits is refused
    ("Exceeds the limit (4300 digits) for integer string conversion"). *)
Definition long_from_string (s : string) : option Z :=
  let s1 := skip_spaces s in
  let '(neg, s2) :=
    match s1 with
    | String "+" r => (false, r)
    | String "-" r => (true, r)
    | _ => (false, s1)
    end in
  if starts_with_digit s2 then
    match scan_digits false 0 0 s2 with
    | Some (v, digits, rest) =>
        if int_max_str_digits <? digits then None
        else
          match skip_spaces rest with
          | EmptyString => Some (if neg then - v else v)
          | String _ _ => None
          end
    | None => None
    end
  else None.

(** The builtin [int(s)] on a [str]: [None] stands for [ValueError]. *)
Definition int (s : string) : option Z :=
  long_from_string (transform_decimal_and_space s).

End PyStr.

(** ** IntervalCodec *)

(** [parse_interval_to_ms], lines 16-30. The unit is read first, so the
    empty string fails in [interval[-1]]; then the prefix is converted, and a
    [ValueError] of [int] is replaced by one of this function. *)
Definition parse_interval_to_ms (interval : string) : result Z :=
  unit <- PyStr.last_char interval ;;
  value <- match PyStr.int (PyStr.but_last interval) with
           | Some v => Ok v
           | None => Raise (ValueError (InvalidInterval interval))
           end ;;
  if Ascii.eqb unit "m" then Ok (value * 60 * 1000)
  else if Ascii.eqb unit "h" then Ok (value * 60 * 60 * 1000)
  else if Ascii.eqb unit "d" then Ok (value * 24 * 60 * 60 * 1000)
  else Raise (ValueError (UnsupportedUnit unit interval)).

(** ** SeriesFetcher *)

(** One row of the kline endpoint. The code reads the row by position: the
    open time at [KLINE_OPEN_TIME_INDEX = 0], the close price at
    [KLINE_CLOSE_PRICE_INDEX = 4], the volume at [KLINE_VOLUME_INDEX = 5];
    no other position is read. *)
Record Kline : Type := {
  openTime : Z;
  closePrice : Q;
  volume : Q
}.

(** The [params] dictionary of one request. *)
Record Params : Type := {
  symbol : string;
  interval : string;
  startTime : Z;
  endTime : Z;
  limit : Z
}.

(** What one request yields: the decoded JSON list, or a failure of
    [requests.get] / [raise_for_status] / [json]. *)
Inductive Response : Type :=
| Page (data : list Kline)
| Failed (why : RequestFailure).

(** The exchanges made so far, oldest first. *)
Definition World : Type := list (Params * Response).

(** The remote endpoint (the page provider): its answer may depend on every
    exchange made before and on the request. *)
Definition Endpoint : Type := World -> Params -> Response.

(** Lines 64-69: the request is made and recorded; a failure is raised as a
    [RequestException] (the [except] clause re-raises it). *)
Definition requests_get (server : Endpoint) (w : World) (params : Params)
  : World * result (list Kline) :=
  let r := server w params in
  (w ++ [(params, r)],
   match r with
   | Page data => Ok data
   | Failed why => Raise (RequestException why)
   end).

(** [data[-1]] for a list that may be empty. *)
Fixpoint last_kline (data : list Kline) : option Kline :=
  match data with
  | [] => None
  | [k] => Some k
  | _ :: data' => last_kline data'
  end.

(** What [datetime.fromtimestamp(current_time / 1000)] can raise; line 78
    evaluates it, inside the message of [logging.debug], whatever the level
    of the log. *)
Inductive TimeError : Type :=
| YearRange     (* ValueError: the local year is not in 1..9999 *)
| TimeTRange    (* OverflowError: "timestamp out of range for platform
                   time_t", or that of the division for an [int] too large
                   for a float *)
| LocalTime     (* OSError: the C library cannot convert the time *).

Definition time_error (e : TimeError) : exn :=
  match e with
  | YearRange => ValueError YearOutOfRange
  | TimeTRange => OverflowError
  | LocalTime => OSError
  end.

(** The conversion depends on the platform and on the time zone of the
    machine: [fromtimestamp c] is what
    [datetime.fromtimestamp(c / 1000)] raises for the cursor [c], [None]
    when it returns a date. *)
Definition Clock : Type := Z -> option TimeError.

(** How one pass through the [while] statement of line 55 ends. *)
Inductive Step : Type :=
| Continue (w : World) (current_time : Z) (klines : list Kline)
| Return (w : World) (klines : list Kline)
| Throw (w : World) (e : exn).

Section FetchLoop.

Variable fromtimestamp : Clock.
Variable server : Endpoint.
Variables (symbol_ interval_ : string).
Variable interval_ms : Z.
Variable end_time : Z.

(** Lines 55-78: the loop test and one execution of the loop body. After a
    page that holds records, the message of line 78 is built before
    [logging.debug] is called: an exception of the date conversion leaves
    the function, and the records received are lost. *)
Definition loop_body (w : World) (current_time : Z) (klines : list Kline)
  : Step :=
  if current_time <? end_time then
    let params := {| symbol := symbol_; interval := interval_;
                     startTime := current_time; endTime := end_time;
                     limit := 1000 |} in
    match requests_get server w params with
    | (w', Raise e) => Throw w' e
    | (w', Ok data) =>
        match last_kline data with
        | None => Return w' klines                       (* if not data: break *)
        | Some last =>
            let current_time' := openTime last + interval_ms in
            match fromtimestamp current_time' with            (* line 78 *)
            | Some e => Throw w' (time_error e)
            | None => Continue w' current_time' (klines ++ data)
            end
        end
    end
  else Return w klines.

(** The [while] loop, run for at most [fuel] passes; [None] when the fuel
    runs out before the loop ends. *)
Fixpoint fetch_loop (fuel : nat) (w : World) (current_time : Z)
  (klines : list Kline) : option (World * result (list Kline)) :=
  match fuel with
  | O => None
  | S fuel' =>
      match loop_body w current_time klines with
      | Continue w' current_time' klines' =>
          fetch_loop fuel' w' current_time' klines'
      | Return w' klines' => Some (w', Ok klines')
      | Throw w' e => Some (w', Raise e)
      end
  end.

(** The state of the loop after [n] passes that went on to the next one:
    the world, the cursor and the list; [None] if the loop has ended
    before. *)
Fixpoint after_passes (n : nat) (w : World) (current_time : Z)
  (klines : list Kline) : option (World * Z * list Kline) :=
  match n with
  | O => Some (w, current_time, klines)
  | S n' =>
      match loop_body w current_time klines with
      | Continue w' current_time' klines' =>
          after_passes n' w' current_time' klines'
      | Return _ _ | Throw _ _ => None
      end
  end.

End FetchLoop.

(** [get_binance_klines], lines 42-80. An exception of
    [parse_interval_to_ms] leaves before any request is made. *)
Definition get_binance_klines (fuel : nat) (fromtimestamp : Clock)
  (server : Endpoint) (w : World) (symbol interval : string)
  (start_time end_time : Z) : option (World * result (list Kline)) :=
  match parse_interval_to_ms interval with
  | Raise e => Some (w, Raise e)
  | Ok interval_ms =>
      fetch_loop fromtimestamp server symbol interval interval_ms end_time
        fuel w start_time []
  end.

(** The pages of a world, in request order, and those that hold records. *)
Definition pages (w : World) : list (list Kline) :=
  flat_map (fun x => match snd x with Page data => [data] | Failed _ => [] end) w.

Definition nonempty_pages (w : World) : list (list Kline) :=
  filter (fun data => match data with [] => false | _ :: _ => true end) (pages w).

(** The [except] clause of [main], line 161: which exceptions it handles (it
    logs them and exits with status 1). *)
Definition main_catches (e : exn) : bool :=
  match e with
  | ValueError _ => true
  | RequestException _ => true
  | IndexError | OverflowError | OSError => false
  end.

(** ** The parts of NumPy that [calculate_poc] calls

    [np.histogram] with an integer [bins] and [weights], [np.linspace] and
    [np.argmax], following NumPy's implementation of equal-width bins, over
    exact arithmetic. *)

Module Np.

Local Open Scope Q_scope.

Definition Qlt_bool (x y : Q) : bool := negb (Qle_bool y x).

(** [a.min()] and [a.max()] of an array with first element [x]. *)
Definition amin (x : Q) (xs : list Q) : Q :=
  fold_left (fun m y => if Qlt_bool y m then y else m) xs x.

Definition amax (x : Q) (xs : list Q) : Q :=
  fold_left (fun m y => if Qlt_bool m y then y else m) xs x.

(** [astype(np.intp)]: the fraction is dropped (rounding toward zero). *)
Definition to_intp (x : Q) : Z := Z.quot (Qnum x) (Zpos (Qden x)).

(** [np.linspace(start, stop, num)] with [endpoint=True]. *)
Definition linspace (start stop : Q) (num : Z) : list Q :=
  let div := (num - 1)%Z in
  let delta := stop - start in
  let y := map (fun i => inject_Z (Z.of_nat i)) (seq 0 (Z.to_nat num)) in
  let y :=
    if (0 <? div)%Z then
      let step := delta / inject_Z div in
      if Qeq_bool step 0
      then map (fun i => (i / inject_Z div) * delta) y
      else map (fun i => i * step) y
    else map (fun i => i * delta) y in
  let y := map (fun v => v + start) y in
  if (1 <? num)%Z then removelast y ++ [stop] else y.

(** [bin_edges[i]]; every index used below is within the array (lemma
    [bin_index_range]). *)
Definition item (bin_edges : list Q) (i : Z) : Q :=
  nth (Z.to_nat i) bin_edges 0.

(** The bin of one value: the scaled position truncated, the value on the
    last edge moved into the last bin, then the two corrections against
    the edges themselves. *)
Definition bin_index (bin_edges : list Q) (first_edge last_edge : Q)
  (n_equal_bins : Z) (x : Q) : Z :=
  let norm_numerator := inject_Z n_equal_bins in
  let norm_denom := last_edge - first_edge in
  let f_index := ((x - first_edge) / norm_denom) * norm_numerator in
  let index := to_intp f_index in
  let index := if (index =? n_equal_bins)%Z then (index - 1)%Z else index in
  let index :=
    if Qlt_bool x (item bin_edges index) then (index - 1)%Z else index in
  let index :=
    if Qle_bool (item bin_edges (index + 1)) x
       && negb (index =? n_equal_bins - 1)%Z
    then (index + 1)%Z else index in
  index.

(** [n[i] += w]. *)
Fixpoint add_at (i : nat) (w : Q) (n : list Q) : list Q :=
  match n, i with
  | [], _ => []
  | x :: n', O => (x + w) :: n'
  | x :: n', S i' => x :: add_at i' w n'
  end.

(** [np.bincount(indices, weights, minlength)] for indices below
    [minlength]. *)
Definition bincount (indices : list Z) (weights : list Q) (minlength : Z)
  : list Q :=
  fold_left (fun n iw => add_at (Z.to_nat (fst iw)) (snd iw) n)
    (combine indices weights) (repeat 0 (Z.to_nat minlength)).

(** [np.histogram(a, bins=bins, weights=weights)]: the histogram and the
    [bins + 1] edges. *)
Definition histogram (a : list Q) (bins : Z) (weights : list Q)
  : result (list Q * list Q) :=
  if (bins <? 1)%Z then Raise (ValueError HistogramBins)
  else
    let outer :=
      match a with
      | [] => (0, 1)
      | x :: xs => (amin x xs, amax x xs)
      end in
    let outer :=
      if Qeq_bool (fst outer) (snd outer)
      then (fst outer - (1 # 2), snd outer + (1 # 2))
      else outer in
    let first_edge := fst outer in
    let last_edge := snd outer in
    let bin_edges := linspace first_edge last_edge (bins + 1) in
    let kept :=
      filter (fun xw => Qle_bool first_edge (fst xw)
                        && Qle_bool (fst xw) last_edge)
        (combine a weights) in
    let indices :=
      map (fun xw => bin_index bin_edges first_edge last_edge bins (fst xw))
        kept in
    Ok (bincount indices (map snd kept) bins, bin_edges).

(** [np.argmax]: the index of the first occurrence of the maximum. *)
Fixpoint argmax_from (best : nat) (best_value : Q) (i : nat) (l : list Q)
  : nat :=
  match l with
  | [] => best
  | x :: l' =>
      if Qlt_bool best_value x
      then argmax_from i x (S i) l'
      else argmax_from best best_value (S i) l'
  end.

Definition argmax (l : list Q) : nat :=
  match l with
  | [] => O
  | x :: l' => argmax_from 0 x 1 l'
  end.

End Np.

(** ** PocCalculator *)

Definition default_bins : Z := 500.

(** [calculate_poc], lines 83-98. *)
Definition calculate_poc (klines : list Kline) (bins : Z) : result Q :=
  match klines with
  | [] => Ok 0%Q
  | _ :: _ =>
      let precios := map closePrice klines in
      let volumenes := map volume klines in
      he <- Np.histogram precios bins volumenes ;;
      let hist := fst he in
      let edges := snd he in
      let idx_poc := Np.argmax hist in
      Ok ((nth idx_poc edges 0 + nth (idx_poc + 1) edges 0) / 2)%Q
  end.

(** ** The histogram in the words of the specification *)

Module Spec.

Local Open Scope Q_scope.

(** Edge [i] of [bins] equal-width bins over [[lo, hi]]. *)
Definition edge (lo hi : Q) (bins i : Z) : Q :=
  lo + inject_Z i * ((hi - lo) / inject_Z bins).

Definition midpoint (lo hi : Q) (bins i : Z) : Q :=
  (edge lo hi bins i + edge lo hi bins (i + 1)) / 2.

(** The convention of the code: bin [i] is [[edge i, edge (i+1))], and the
    last bin also holds its right edge. *)
Definition in_bin (lo hi : Q) (bins i : Z) (p : Q) : bool :=
  Qle_bool (edge lo hi bins i) p
  && (Np.Qlt_bool p (edge lo hi bins (i + 1))
      || ((i =? bins - 1)%Z && Qle_bool p hi)).


Definition Qsum (l : list Q) : Q := fold_right Qplus 0 l.

(** The volume accumulated in bin [i] under a convention [member]. *)
Definition bin_volume (member : Z -> Q -> bool) (klines : list Kline)
  (i : Z) : Q :=
  Qsum (map volume (filter (fun k => member i (closePrice k)) klines)).

(** The range that the code partitions: [[min, max]] of the close prices,
    widened by one half on each side when they coincide. *)
Definition price_range (klines : list Kline) : Q * Q :=
  match map closePrice klines with
  | [] => (0, 1)
  | x :: xs =>
      let lo := Np.amin x xs in
      let hi := Np.amax x xs in
      if Qeq_bool lo hi then (lo - (1 # 2), hi + (1 # 2)) else (lo, hi)
  end.


(** [r] is the first position of a greatest element of [l]. *)
Definition first_max (l : list Q) (r : nat) : Prop :=
  (r < List.length l)%nat /\
  (forall j, (j < List.length l)%nat -> nth j l 0 <= nth r l 0) /\
  (forall j, (j < r)%nat -> nth j l 0 < nth r l 0).

(** The weights that [bincount] adds at position [j]. *)
Definition weight_at (j : nat) (pairs : list (Z * Q)) : Q :=
  Qsum (map snd (filter (fun iw => Nat.eqb (Z.to_nat (fst iw)) j) pairs)).

(** The bin index and the volume of every record of a series. *)
Definition indexed (first last : Q) (bins : Z) (edges : list Q)
  (klines : list Kline) : list (Z * Q) :=
  map (fun k => (Np.bin_index edges first last bins (closePrice k),
                 volume k))
    klines.


End Spec.

Definition kline (t : Z) (price vol : Q) : Kline :=
  {| openTime := t; closePrice := price; volume := vol |}.

(** The records of a series are in strictly increasing order of open
    time. *)
Definition increasing (data : list Kline) : Prop :=
  StronglySorted (fun a b => openTime a < openTime b) data.

(** A page provider that always answers with a page in strictly increasing
    order whose first record, if any, is not before the requested start. *)
Definition orderly (server : Endpoint) : Prop :=
  forall w p, exists data,
    server w p = Page data /\
    increasing data /\
    (forall k data', data = k :: data' -> startTime p <= openTime k).

(** Sample page providers. *)

(** Answers the first two requests that start at or before 5 with the one
    record of open time 5, and every other request with the empty page. *)
Definition repeating_server : Endpoint :=
  fun w p =>
    if (Nat.ltb (List.length w) 2) && (startTime p <=? 5)
    then Page [kline 5 1 1] else Page [].

(** Answers the first request with a record of open time 0, whatever the
    requested start, and every later request with the empty page. *)
Definition regressing_server : Endpoint :=
  fun w p => match w with [] => Page [kline 0 1 1] | _ :: _ => Page [] end.

(** Answers every request with the same record of open time 0. *)
Definition stuck_server : Endpoint :=
  fun w p => Page [kline 0 1 1].

(** A provider that serves a fixed series: the records of the requested
    window, at most [page_size] (and at most [limit]) per request. *)
Definition dataset_server (page_size : nat) (dataset : list Kline)
  : Endpoint :=
  fun _ p =>
    Page (firstn (Nat.min page_size (Z.to_nat (limit p)))
            (filter (fun k => (startTime p <=? openTime k)
                              && (openTime k <=? endTime p))
               dataset)).

Definition hourly_data : list Kline :=
  [kline 0 10 1; kline 3600000 11 2; kline 7200000 12 1].

(** Serves one record whose open time is in the year 11476. *)
Definition far_future_server : Endpoint :=
  dataset_server 1000 [kline 300000000000000 1 1].

(** ** The trace of a download *)

(** The request that [get_binance_klines] builds for the cursor [c]. *)
Definition request_at (symbol_ interval_ : string) (end_time c : Z) : Params :=
  {| symbol := symbol_; interval := interval_; startTime := c;
     endTime := end_time; limit := 1000 |}.

(** The exchanges [w] are those of a run of the loop that starts with the
    history [h] and the cursor [c]: each request is the one built for the
    current cursor, which is below [end_time], and is answered by the
    provider; a page with records moves the cursor to its last open time
    plus the step; an empty page or a failure is the last exchange. *)
Fixpoint chained (server : Endpoint) (symbol_ interval_ : string)
  (interval_ms end_time : Z) (h : World) (c : Z) (w : World) : Prop :=
  match w with
  | [] => True
  | (p, r) :: w' =>
      p = request_at symbol_ interval_ end_time c /\
      c < end_time /\
      r = server h p /\
      match r with
      | Page data =>
          match last_kline data with
          | Some last =>
              chained server symbol_ interval_ interval_ms end_time
                (h ++ [(p, r)]) (openTime last + interval_ms) w'
          | None => w' = []
          end
      | Failed _ => w' = []
      end
  end.

(** How a run that made the exchanges [w] ended, as far as [w] tells:
    normally, with the exception of a failed last request, or with the
    exception of the date conversion of line 78 after a last page that
    holds records. *)
Definition ends_with (fromtimestamp : Clock) (interval_ms : Z) (w : World)
  (r : result (list Kline)) : Prop :=
  match r with
  | Ok _ => forall p why, ~ In (p, Failed why) w
  | Raise e =>
      (exists w1 p why,
          w = w1 ++ [(p, Failed why)] /\ e = RequestException why) \/
      (exists w1 p data last te,
          w = w1 ++ [(p, Page data)] /\
          last_kline data = Some last /\
          fromtimestamp (openTime last + interval_ms) = Some te /\
          e = time_error te)
  end.

(** The cursor after the exchanges [w], from the cursor [c]: each page that
    holds records moves it to the last open time plus the step. *)
Definition final_cursor (interval_ms : Z) (c : Z) (w : World) : Z :=
  fold_left
    (fun c x =>
       match snd x with
       | Page data =>
           match last_kline data with
           | Some last => openTime last + interval_ms
           | None => c
           end
       | Failed _ => c
       end)
    w c.

(** The records of a world, in the order received. *)
Definition records (w : World) : list Kline := List.concat (pages w).

(** Answers the first request with one record and fails on the second with
    the status 429. *)
Definition failing_server : Endpoint :=
  fun w p =>
    match w with
    | [] => Page [kline 0 10 1]
    | _ :: _ => Failed (HTTPError 429)
    end.

(** ** Decimal numerals *)

(** The character of a decimal digit, the text of a list of digits, and the
    number that the digits denote. *)
Definition digit_char (d : Z) : ascii := ascii_of_N (Z.to_N (48 + d)).

Fixpoint numeral (ds : list Z) : string :=
  match ds with
  | [] => EmptyString
  | d :: ds' => String (digit_char d) (numeral ds')
  end.

Definition decimal_value (ds : list Z) : Z :=
  fold_left (fun a d => 10 * a + d) ds 0.

Definition is_digit (d : Z) : Prop := 0 <= d <= 9.

(** ** The orchestrator *)

(** The command-line arguments that [main] reads. *)
Record Args : Type := {
  args_symbol : string;
  args_start : string;
  args_end : string;
  args_interval : string;
  args_prev_poc : Q
}.

(** What [get_timestamp_ms] gives: milliseconds, or the [ValueError] that
    line 39 raises for the text. *)
Inductive DateResult : Type :=
| Millis (ms : Z)
| InvalidDate (fecha_str : string).

(** [cambio_pct]: a number, or [float('inf')]. *)
Inductive Pct : Type :=
| Finite (q : Q)
| Infinity.

Inductive Color : Type :=
| COLOR_GREEN
| COLOR_RED.

(** What the [except] clause of [main] logs before [sys.exit(1)]. *)
Inductive Failure : Type :=
| DateFailure (fecha_str : string)
| Raised (e : exn).

(** How [main] ends after the arguments are parsed. *)
Inductive Outcome : Type :=
| NoData                                        (* warning logged, return *)
| Results (poc : Q) (cambio_pct : Pct) (color : Color)      (* printed *)
| Exit1 (why : Failure)                     (* error logged, sys.exit(1) *)
| Uncaught (e : exn).              (* the exception leaves [main] *)

(** [int(x)] on a float: the fraction is dropped. *)
Definition int_of_float (x : Q) : Z := Z.quot (Qnum x) (Zpos (Qden x)).

(** [cambio_pct >= 0]. *)
Definition pct_nonneg (p : Pct) : bool :=
  match p with
  | Finite q => Qle_bool 0 q
  | Infinity => true
  end.

Section Orchestrator.

(** [datetime.strptime(_, "%Y-%m-%d")] and [datetime.timestamp] are the
    Python library's and depend on the time zone of the machine: they are
    parameters here, [None] standing for their [ValueError]; so is the
    date conversion that the download uses. *)
Variable DateTime : Type.
Variable strptime : string -> option DateTime.
Variable timestamp : DateTime -> option Q.
Variable fromtimestamp : Clock.

(** [get_timestamp_ms], lines 33-39: a [ValueError] of either call is
    replaced by the one of this function. *)
Definition get_timestamp_ms (fecha_str : string) : DateResult :=
  match strptime fecha_str with
  | None => InvalidDate fecha_str
  | Some dt =>
      match timestamp dt with
      | None => InvalidDate fecha_str
      | Some seconds => Millis (int_of_float (seconds * 1000))
      end
  end.

(** The [except] clause of [main] applied to an exception of the core. *)
Definition handle (e : exn) : Outcome :=
  if main_catches e then Exit1 (Raised e) else Uncaught e.

(** [main], lines 128-163, after the arguments are parsed and logging is
    set up; [None] when the fuel of the download runs out. *)
Definition main (fuel : nat) (server : Endpoint) (w : World) (args : Args)
  : option (World * Outcome) :=
  match get_timestamp_ms (args_start args) with
  | InvalidDate s => Some (w, Exit1 (DateFailure s))
  | Millis start_time =>
      match get_timestamp_ms (args_end args) with
      | InvalidDate s => Some (w, Exit1 (DateFailure s))
      | Millis end_day =>
          let end_time := end_day + 24 * 60 * 60 * 1000 - 1 in
          match get_binance_klines fuel fromtimestamp server w
                  (args_symbol args) (args_interval args) start_time
                  end_time with
          | None => None
          | Some (w', Raise e) => Some (w', handle e)
          | Some (w', Ok []) => Some (w', NoData)
          | Some (w', Ok (k :: klines)) =>
              match calculate_poc (k :: klines) default_bins with
              | Raise e => Some (w', handle e)
              | Ok poc =>
                  let poc_anterior := args_prev_poc args in
                  let cambio_pct :=
                    if negb (Qeq_bool poc_anterior 0)
                    then Finite ((poc - poc_anterior) / poc_anterior * 100)%Q
                    else Infinity in
                  let color :=
                    if pct_nonneg cambio_pct then COLOR_GREEN
                    else COLOR_RED in
                  Some (w', Results poc cambio_pct color)
              end
          end
      end
  end.

End Orchestrator.

(** A sample clock: [datetime.fromtimestamp] of CPython 3.11 on Linux with
    a 64-bit [time_t], in UTC. Dates are given from the second day of year 1
    to the end of year 9999; beyond, the year is out of range as long as
    the C library can compute it, and the time is out of the range of
    [time_t] at about 2^63 seconds. *)
Definition utc_fromtimestamp : Clock :=
  fun c =>
    if (-62135510400000 <=? c) && (c <? 253402300800000) then None
    else if (-67768040609740804000 <=? c) && (c <? 67768036191676796000)
    then Some YearRange
    else if (-9223372036854776832000 <=? c) && (c <=? 9223372036854776832000)
    then Some LocalTime
    else Some TimeTRange.

(** A sample environment: two dates, in UTC. *)
Definition sample_strptime (s : string) : option Z :=
  if String.eqb s "2024-01-01" then Some 1704067200
  else if String.eqb s "2024-01-02" then Some 1704153600
  else None.

Definition sample_timestamp (seconds : Z) : option Q :=
  Some (inject_Z seconds).

Definition sample_args : Args :=
  {| args_symbol := "BTCUSDT"; args_start := "2024-01-01";
     args_end := "2024-01-01"; args_interval := "1h";
     args_prev_poc := 40000 |}.

(** Serves two hourly records of the first of January 2024. *)
Definition january_server : Endpoint :=
  dataset_server 1000
    [kline 1704067200000 42000 3; kline 1704070800000 42500 5].

(** The same query with the two dates exchanged. *)
Definition reversed_args : Args :=
  {| args_symbol := "BTCUSDT"; args_start := "2024-01-02";
     args_end := "2024-01-01"; args_interval := "1h";
     args_prev_poc := 40000 |}.

(** * Properties *)

(** ** IntervalCodec *)

Section Codec.

Local Open Scope string_scope.

Lemma last_char_app (prefix : string) (u : ascii) :
  PyStr.last_char (prefix ++ String u "") = Ok u.
Proof.
  induction prefix as [|c prefix IH]; simpl; [reflexivity|].
  destruct (prefix ++ String u "") eqn:E; [|exact IH].
  destruct prefix; discriminate.
Qed.

Lemma but_last_app (prefix : string) (u : ascii) :
  PyStr.but_last (prefix ++ String u "") = prefix.
Proof.
  induction prefix as [|c prefix IH]; simpl; [reflexivity|].
  destruct (prefix ++ String u "") eqn:E.
  - destruct prefix; discriminate.
  - rewrite IH. reflexivity.
Qed.

(** A token that [parse_interval_to_ms] accepts is not empty, so it is its
    prefix followed by its unit. *)
Lemma last_char_split (s : string) (u : ascii) :
  PyStr.last_char s = Ok u -> s = PyStr.but_last s ++ String u "".
Proof.
  induction s as [|c s IH]; simpl; [discriminate|].
  destruct s as [|c' s'].
  - intros H. injection H as ->. reflexivity.
  - intros H. simpl. f_equal. apply IH. exact H.
Qed.

(** The three branches of [parse_interval_to_ms] once the unit and the
    prefix are known. *)
Lemma parse_interval_to_ms_app (prefix : string) (u : ascii) :
  parse_interval_to_ms (prefix ++ String u "") =
  match PyStr.int prefix with
  | None => Raise (ValueError (InvalidInterval (prefix ++ String u "")))
  | Some value =>
      if Ascii.eqb u "m" then Ok (value * 60 * 1000)%Z
      else if Ascii.eqb u "h" then Ok (value * 60 * 60 * 1000)%Z
      else if Ascii.eqb u "d" then Ok (value * 24 * 60 * 60 * 1000)%Z
      else Raise (ValueError (UnsupportedUnit u (prefix ++ String u "")))
  end.
Proof.
  unfold parse_interval_to_ms.
  rewrite last_char_app, but_last_app. simpl.
  destruct (PyStr.int prefix); reflexivity.
Qed.

(** The model of [int] on sample texts, as the interpreter answers them. *)
Example int_samples :
  map PyStr.int
    ["1"; "-1"; "+1"; " 1 "; "1_0"; "_1"; "1_"; "1__0"; ""; "-"; "+ 1"; "0";
     "007"; "1.0"; "0x10"; "--1"; "-0"; "1 0"]
  = [Some 1; Some (-1); Some 1; Some 1; Some 10; None; None; None; None; None;
     None; Some 0; Some 7; None; None; None; Some 0; None]%Z.
Proof. reflexivity. Qed.

End Codec.

(** C7. A token made of a prefix that [int] accepts and of a unit [m], [h] or
    [d] yields the prefix value times 60,000, 3,600,000 or 86,400,000; a
    token whose prefix [int] rejects, or whose unit is none of the three,
    raises [ValueError] (the InvalidIntervalError of the specification); the
    five sample tokens behave as listed. *)
Theorem parse_interval_to_ms_correct :
  (forall (prefix : string) (u : ascii) (v : Z),
      PyStr.int prefix = Some v ->
      (u = "m"%char ->
       parse_interval_to_ms (prefix ++ String u "")%string = Ok (v * 60000)) /\
      (u = "h"%char ->
       parse_interval_to_ms (prefix ++ String u "")%string = Ok (v * 3600000)) /\
      (u = "d"%char ->
       parse_interval_to_ms (prefix ++ String u "")%string = Ok (v * 86400000))) /\
  (forall (prefix : string) (u : ascii),
      PyStr.int prefix = None \/
      (u <> "m"%char /\ u <> "h"%char /\ u <> "d"%char) ->
      exists msg,
        parse_interval_to_ms (prefix ++ String u "")%string
        = Raise (ValueError msg)) /\
  parse_interval_to_ms "1m" = Ok 60000 /\
  parse_interval_to_ms "4h" = Ok 14400000 /\
  parse_interval_to_ms "1d" = Ok 86400000 /\
  (exists msg, parse_interval_to_ms "1x" = Raise (ValueError msg)) /\
  (exists msg, parse_interval_to_ms "abc" = Raise (ValueError msg)).
Proof.
  split; [|split].
  - intros prefix u v Hv.
    repeat split; intros ->; rewrite parse_interval_to_ms_app, Hv; simpl;
      f_equal; lia.
  - intros prefix u H. rewrite parse_interval_to_ms_app.
    destruct (PyStr.int prefix) as [v|]; [|eexists; reflexivity].
    destruct H as [H|(Hm & Hh & Hd)]; [discriminate|].
    apply Ascii.eqb_neq in Hm, Hh, Hd. rewrite Hm, Hh, Hd.
    eexists; reflexivity.
  - repeat split; try reflexivity; eexists; reflexivity.
Qed.

(** The three cases on sample tokens: 15 minutes, an unknown unit, a prefix
    that is not an integer. *)
Lemma parse_interval_to_ms_correct_witness :
  parse_interval_to_ms "15m" = Ok 900000 /\
  (exists msg, parse_interval_to_ms "1_w" = Raise (ValueError msg)) /\
  (exists msg, parse_interval_to_ms "1.5h" = Raise (ValueError msg)).
Proof.
  destruct parse_interval_to_ms_correct as (Hok & Hbad & _).
  split; [|split].
  - destruct (Hok "15"%string "m"%char 15 eq_refl) as (Hm & _).
    exact (Hm eq_refl).
  - apply (Hbad "1_"%string "w"%char). right.
    repeat split; discriminate.
  - apply (Hbad "1.5"%string "h"%char). left. reflexivity.
Defined.




(** C10. The empty token raises [IndexError], from [interval[-1]], before
    the prefix is looked at; [get_binance_klines] lets it through without
    making a request, and the [except] clause of [main], which handles
    [ValueError] and [RequestException], does not handle it. *)
Theorem parse_interval_to_ms_empty :
  parse_interval_to_ms "" = Raise IndexError /\
  (forall msg, @Raise Z IndexError <> Raise (ValueError msg)) /\
  (forall fuel fromtimestamp server w symbol start_time end_time,
      get_binance_klines fuel fromtimestamp server w symbol "" start_time
        end_time
      = Some (w, Raise IndexError)) /\
  main_catches IndexError = false /\
  (forall msg, main_catches (ValueError msg) = true) /\
  (forall why, main_catches (RequestException why) = true).
Proof.
  repeat split; try reflexivity. intros msg; discriminate.
Qed.

(** ** SeriesFetcher *)

Lemma last_kline_In (data : list Kline) (k : Kline) :
  last_kline data = Some k -> In k data.
Proof.
  induction data as [|a data IH]; simpl; [discriminate|].
  destruct data as [|b data'].
  - intros H; injection H as ->; now left.
  - intros H; right; apply IH, H.
Qed.

Lemma last_kline_None (data : list Kline) :
  last_kline data = None <-> data = [].
Proof.
  split; [|intros ->; reflexivity].
  induction data as [|a data IH]; simpl; [reflexivity|].
  destruct data as [|b data']; [discriminate|].
  intros H; apply IH in H; discriminate.
Qed.

(** In an increasing page the last record has the greatest open time. *)
Lemma increasing_last (data : list Kline) (last k : Kline) :
  increasing data -> last_kline data = Some last -> In k data ->
  openTime k <= openTime last.
Proof.
  unfold increasing. induction 1 as [|a data Hs IH Ha]; simpl; [discriminate|].
  destruct data as [|b data'].
  - intros H [<-|[]]; injection H as <-; lia.
  - intros H [<-|Hk].
    + rewrite Forall_forall in Ha.
      specialize (Ha last (last_kline_In _ _ H)). lia.
    + apply IH; assumption.
Qed.

(** In an increasing page the first record has the least open time. *)
Lemma increasing_first (a : Kline) (data : list Kline) (k : Kline) :
  increasing (a :: data) -> In k (a :: data) -> openTime a <= openTime k.
Proof.
  unfold increasing. intros H [<-|Hk]; [lia|].
  apply StronglySorted_inv in H as [_ Ha].
  rewrite Forall_forall in Ha. specialize (Ha k Hk). lia.
Qed.

Lemma increasing_app (l1 l2 : list Kline) :
  increasing l1 -> increasing l2 ->
  (forall a b, In a l1 -> In b l2 -> openTime a < openTime b) ->
  increasing (l1 ++ l2).
Proof.
  unfold increasing. induction 1 as [|a l1 Hs IH Ha]; simpl; intros H2 H12.
  - exact H2.
  - constructor.
    + apply IH; [exact H2|]. intros x y Hx Hy. apply H12; [now right|exact Hy].
    + apply Forall_app. split; [exact Ha|].
      apply Forall_forall. intros y Hy. apply H12; [now left|exact Hy].
Qed.

Lemma increasing_NoDup (l : list Kline) :
  increasing l -> NoDup (map openTime l).
Proof.
  unfold increasing. induction 1 as [|a l Hs IH Ha]; simpl; constructor.
  - rewrite in_map_iff. intros (b & Hb & Hin).
    rewrite Forall_forall in Ha. specialize (Ha b Hin). lia.
  - exact IH.
Qed.

Lemma pages_app (w1 w2 : World) : pages (w1 ++ w2) = pages w1 ++ pages w2.
Proof. unfold pages. apply flat_map_app. Qed.

(** Empty pages add nothing to the concatenation. *)
Lemma concat_nonempty_pages (w : World) :
  List.concat (nonempty_pages w) = List.concat (pages w).
Proof.
  unfold nonempty_pages. induction (pages w) as [|data l IH]; simpl.
  - reflexivity.
  - destruct data; simpl; [exact IH|]. rewrite IH. reflexivity.
Qed.

Section FetchLoopProps.

Variable fromtimestamp : Clock.
Variable server : Endpoint.
Variables (symbol_ interval_ : string).
Variable interval_ms : Z.
Variable end_time : Z.

Let params (current_time : Z) : Params :=
  {| symbol := symbol_; interval := interval_; startTime := current_time;
     endTime := end_time; limit := 1000 |}.

Let body :=
  loop_body fromtimestamp server symbol_ interval_ interval_ms end_time.
Let loop :=
  fetch_loop fromtimestamp server symbol_ interval_ interval_ms end_time.
Let after :=
  after_passes fromtimestamp server symbol_ interval_ interval_ms end_time.

(** The five ways through one pass of the loop. *)
Lemma loop_body_cases (w : World) (c : Z) (ks : list Kline) :
  (end_time <= c /\ body w c ks = Return w ks) \/
  (c < end_time /\ exists why,
      server w (params c) = Failed why /\
      body w c ks
      = Throw (w ++ [(params c, Failed why)]) (RequestException why)) \/
  (c < end_time /\
   server w (params c) = Page [] /\
   body w c ks = Return (w ++ [(params c, Page [])]) ks) \/
  (c < end_time /\ exists data last,
      server w (params c) = Page data /\
      last_kline data = Some last /\
      fromtimestamp (openTime last + interval_ms) = None /\
      body w c ks
      = Continue (w ++ [(params c, Page data)])
          (openTime last + interval_ms) (ks ++ data)) \/
  (c < end_time /\ exists data last te,
      server w (params c) = Page data /\
      last_kline data = Some last /\
      fromtimestamp (openTime last + interval_ms) = Some te /\
      body w c ks
      = Throw (w ++ [(params c, Page data)]) (time_error te)).
Proof.
  unfold body, loop_body, requests_get. fold (params c).
  destruct (Z.ltb_spec c end_time) as [Hlt|Hge]; [|left; auto].
  right. destruct (server w (params c)) as [data|why] eqn:Hs.
  - destruct (last_kline data) as [last|] eqn:Hl.
    + right; right. cbv zeta.
      destruct (fromtimestamp (openTime last + interval_ms)) as [te|] eqn:Hf.
      * right. split; [exact Hlt|]. exists data, last, te. auto.
      * left. split; [exact Hlt|]. exists data, last. auto.
    + right; left. apply last_kline_None in Hl. subst data. auto.
  - left. split; [exact Hlt|]. exists why. auto.
Qed.

(** More fuel does not change the outcome of a run that ended. *)
Lemma fetch_loop_fuel_mono (fuel extra : nat) w c ks r :
  loop fuel w c ks = Some r -> loop (fuel + extra) w c ks = Some r.
Proof.
  unfold loop. revert w c ks.
  induction fuel as [|fuel IH]; simpl; intros w c ks H; [discriminate|].
  destruct (loop_body fromtimestamp server symbol_ interval_ interval_ms
              end_time w c ks);
    auto.
Qed.

(** The loop raises nothing but what the request raises and what the date
    conversion of line 78 raises for a cursor. *)
Lemma fetch_loop_raises (fuel : nat) w c ks w' e :
  loop fuel w c ks = Some (w', Raise e) ->
  (exists why, e = RequestException why) \/
  (exists c' te, fromtimestamp c' = Some te /\ e = time_error te).
Proof.
  unfold loop. revert w c ks.
  induction fuel as [|fuel IH]; simpl; intros w c ks H; [discriminate|].
  destruct (loop_body_cases w c ks)
    as [[_ Hb]|[(_ & why & _ & Hb)|[(_ & _ & Hb)
       |[(_ & d & l & _ & _ & _ & Hb)|(_ & d & l & te & _ & _ & Hf & Hb)]]]];
    unfold body in Hb; rewrite Hb in H.
  - discriminate.
  - injection H as _ <-. eauto.
  - discriminate.
  - eapply IH, H.
  - injection H as _ <-. eauto.
Qed.

(** A provider whose answers always end below [end_time - interval_ms], at
    a time that the date conversion accepts, keeps the loop running
    whatever the fuel. *)
Lemma fetch_loop_diverges :
  (forall w p, exists data last,
      server w p = Page data /\ last_kline data = Some last /\
      openTime last + interval_ms < end_time /\
      fromtimestamp (openTime last + interval_ms) = None) ->
  forall fuel w c ks, c < end_time -> loop fuel w c ks = None.
Proof.
  intros Hstuck. unfold loop.
  induction fuel as [|fuel IH]; simpl; intros w c ks Hc; [reflexivity|].
  destruct (Hstuck w (params c)) as (data & last & Hs & Hl & Hlt & Hf).
  destruct (loop_body_cases w c ks)
    as [[? _]|[(_ & why & Hs' & _)|[(_ & Hs' & _)
       |[(_ & d & l & Hs' & Hl' & _ & Hb)
        |(_ & d & l & te & Hs' & Hl' & Hf' & _)]]]].
  - lia.
  - congruence.
  - rewrite Hs in Hs'. injection Hs' as ->. discriminate.
  - unfold body in Hb. rewrite Hb.
    rewrite Hs in Hs'. injection Hs' as <-.
    rewrite Hl in Hl'. injection Hl' as <-.
    apply IH. exact Hlt.
  - rewrite Hs in Hs'. injection Hs' as <-.
    rewrite Hl in Hl'. injection Hl' as <-. congruence.
Qed.

Lemma final_cursor_cons (c : Z) (p : Params) (data : list Kline)
  (last : Kline) (w : World) :
  last_kline data = Some last ->
  final_cursor interval_ms c ((p, Page data) :: w)
  = final_cursor interval_ms (openTime last + interval_ms) w.
Proof. intros Hl. unfold final_cursor. simpl. rewrite Hl. reflexivity. Qed.

(** If the request of the pass number [n] (counting from 0), should the run
    come to make it, is answered with the empty page, the run ends within
    [n + 1] passes and requests. A normal end returns what the run had
    followed by the pages received, after an empty page or with the cursor
    at or beyond [end_time]; an exception is that of the last exchange. *)
Lemma fetch_loop_ends (fuel : nat) :
  forall (n : nat) w c ks,
    (forall w2 c2 ks2,
        after n w c ks = Some (w2, c2, ks2) -> c2 < end_time ->
        server w2 (params c2) = Page []) ->
    (n < fuel)%nat ->
    exists w_new r,
      loop fuel w c ks = Some (w ++ w_new, r) /\
      (List.length w_new <= n + 1)%nat /\
      match r with
      | Ok ks' =>
          ks' = ks ++ List.concat (pages w_new) /\
          ((exists w1 p, w_new = w1 ++ [(p, Page [])]) \/
           end_time <= final_cursor interval_ms c w_new)
      | Raise e => ends_with fromtimestamp interval_ms w_new (Raise e)
      end.
Proof.
  unfold loop, after.
  induction fuel as [|fuel IH]; intros n w c ks Hempty Hfuel; [lia|].
  simpl.
  destruct (loop_body_cases w c ks)
    as [[Hc Hb]|[(Hc & why & Hs & Hb)|[(Hc & Hs & Hb)
       |[(Hc & d & l & Hs & Hl & Hf & Hb)
        |(Hc & d & l & te & Hs & Hl & Hf & Hb)]]]];
    unfold body in Hb; rewrite Hb.
  - exists [], (Ok ks). rewrite !app_nil_r.
    split; [reflexivity|]. split; [simpl; lia|].
    split; [reflexivity|]. right. exact Hc.
  - exists [(params c, Failed why)], (Raise (RequestException why)).
    split; [reflexivity|]. split; [simpl; lia|].
    left. exists [], (params c), why. auto.
  - exists [(params c, Page [])], (Ok ks).
    split; [reflexivity|]. split; [simpl; lia|].
    split; [simpl; rewrite app_nil_r; reflexivity|].
    left. exists [], (params c). reflexivity.
  - destruct n as [|n].
    + specialize (Hempty w c ks eq_refl Hc).
      rewrite Hs in Hempty. injection Hempty as ->. discriminate.
    + destruct (IH n (w ++ [(params c, Page d)])
                  (openTime l + interval_ms) (ks ++ d))
        as (w_new & r & Hrun & Hlen & Hr).
      * intros w2 c2 ks2 Ha. apply (Hempty w2 c2 ks2). simpl. rewrite Hb.
        exact Ha.
      * lia.
      * exists ((params c, Page d) :: w_new), r.
        rewrite <- app_assoc in Hrun. split; [exact Hrun|].
        split; [simpl; lia|].
        destruct r as [ks'|e].
        -- destruct Hr as (-> & Hlast). split.
           ++ unfold pages. simpl. rewrite <- app_assoc. reflexivity.
           ++ destruct Hlast as [(w1 & p & ->)|Hlast].
              ** left. exists ((params c, Page d) :: w1), p. reflexivity.
              ** right. rewrite (final_cursor_cons _ _ _ _ _ Hl).
                 exact Hlast.
        -- destruct Hr as [(w1 & p & why & -> & ->)
                          |(w1 & p & d' & l' & te & -> & Hl' & Hf' & ->)].
           ++ left. exists ((params c, Page d) :: w1), p, why. auto.
           ++ right. exists ((params c, Page d) :: w1), p, d', l', te. auto.
  - exists [(params c, Page d)], (Raise (time_error te)).
    split; [reflexivity|]. split; [simpl; lia|].
    right. exists [], (params c), d, l, te. auto.
Qed.

(** With a positive step and an orderly provider whose pages end at times
    that the date conversion accepts, the loop ends normally; what it
    returns is what it had followed by the pages received, in order, and is
    increasing. *)
Lemma fetch_loop_orderly :
  0 < interval_ms -> orderly server ->
  (forall w p data last,
      server w p = Page data -> last_kline data = Some last ->
      fromtimestamp (openTime last + interval_ms) = None) ->
  forall fuel w c ks,
    increasing ks ->
    (forall k, In k ks -> openTime k < c) ->
    (Z.to_nat (end_time - c) < fuel)%nat ->
    exists w_new ks',
      loop fuel w c ks = Some (w ++ w_new, Ok ks') /\
      ks' = ks ++ List.concat (pages w_new) /\
      increasing ks'.
Proof.
  intros Hstep Hord Hclock. unfold loop.
  induction fuel as [|fuel IH]; simpl; intros w c ks Hinc Hlt Hfuel; [lia|].
  destruct (Hord w (params c)) as (data & Hs & Hdata & Hfirst).
  destruct (loop_body_cases w c ks)
    as [[_ Hb]|[(_ & why & Hs' & _)|[(_ & _ & Hb)
       |[(Hc & d & l & Hs' & Hl & _ & Hb)
        |(_ & d & l & te & Hs' & Hl & Hf & _)]]]].
  - unfold body in Hb. rewrite Hb. exists [], ks.
    rewrite !app_nil_r. auto.
  - congruence.
  - unfold body in Hb. rewrite Hb. exists [(params c, Page [])], ks. simpl.
    rewrite app_nil_r. auto.
  - unfold body in Hb. rewrite Hb.
    rewrite Hs in Hs'. injection Hs' as <-.
    assert (Hge : forall k, In k data -> c <= openTime k).
    { destruct data as [|a data']; [intros k []|]. intros k Hk.
      specialize (Hfirst a data' eq_refl). simpl in Hfirst.
      pose proof (increasing_first a data' k Hdata Hk). lia. }
    assert (Hle : forall k, In k data -> openTime k <= openTime l).
    { intros k Hk. eapply increasing_last; eassumption. }
    pose proof (Hge l (last_kline_In _ _ Hl)) as Hcl.
    destruct (IH (w ++ [(params c, Page data)])
                (openTime l + interval_ms) (ks ++ data))
      as (w_new & ks' & Hrun & Hks & Hinc').
    + apply increasing_app; auto. intros a b Ha Hb'.
      specialize (Hlt a Ha). specialize (Hge b Hb'). lia.
    + intros k Hk. apply in_app_or in Hk as [Hk|Hk].
      * specialize (Hlt k Hk). lia.
      * specialize (Hle k Hk). lia.
    + lia.
    + exists ((params c, Page data) :: w_new), ks'.
      rewrite <- app_assoc in Hrun. simpl in Hrun.
      split; [exact Hrun|]. split; [|exact Hinc'].
      rewrite Hks. simpl. rewrite <- app_assoc. reflexivity.
  - rewrite (Hclock _ _ _ _ Hs' Hl) in Hf. discriminate.
Qed.

End FetchLoopProps.

Lemma increasing_filter (f : Kline -> bool) (l : list Kline) :
  increasing l -> increasing (filter f l).
Proof.
  unfold increasing. induction 1 as [|a l Hs IH Ha]; simpl; [constructor|].
  destruct (f a); [|exact IH]. constructor; [exact IH|].
  rewrite Forall_forall in *. intros b Hb. apply filter_In in Hb as [Hb _].
  auto.
Qed.

Lemma firstn_In {A} (n : nat) (l : list A) (x : A) :
  In x (firstn n l) -> In x l.
Proof.
  revert l. induction n as [|n IH]; intros [|a l]; simpl; try tauto.
  intros [H|H]; [now left|right; apply IH, H].
Qed.

Lemma increasing_firstn (n : nat) (l : list Kline) :
  increasing l -> increasing (firstn n l).
Proof.
  unfold increasing. intros H. revert n.
  induction H as [|a l Hs IH Ha]; intros [|n]; simpl; try constructor.
  - apply IH.
  - rewrite Forall_forall in *. intros b Hb. apply Ha.
    eapply firstn_In, Hb.
Qed.

(** Serving an increasing series by windows gives an orderly provider. *)
Lemma dataset_server_orderly (page_size : nat) (dataset : list Kline) :
  increasing dataset -> orderly (dataset_server page_size dataset).
Proof.
  intros Hinc w p. eexists. split; [reflexivity|]. split.
  - apply increasing_firstn, increasing_filter, Hinc.
  - intros k data' E.
    assert (Hin : In k (k :: data')) by now left.
    rewrite <- E in Hin. apply firstn_In in Hin.
    apply filter_In in Hin as [_ Hk]. lia.
Qed.

(** The cursors that a window-serving provider can lead to are those of
    its series. *)
Lemma dataset_server_cursor (fromtimestamp : Clock) (step : Z)
  (page_size : nat) (dataset : list Kline) :
  (forall k, In k dataset -> fromtimestamp (openTime k + step) = None) ->
  forall w p data last,
    dataset_server page_size dataset w p = Page data ->
    last_kline data = Some last ->
    fromtimestamp (openTime last + step) = None.
Proof.
  intros H w p data last Hs Hl. injection Hs as <-.
  apply last_kline_In, firstn_In, filter_In in Hl as [Hin _].
  apply H, Hin.
Qed.

(** C1, as stated, fails: with the token ["0m"] the step is 0, an orderly
    provider may answer the request that starts at the last open time with
    the same record again, and the returned series holds it twice. And with
    a positive step, an orderly provider may serve a record of the year
    11476: line 78 cannot give the next cursor as a date, and the call
    raises instead of returning the page. *)
Lemma get_binance_klines_zero_step_repeats :
  orderly repeating_server /\
  parse_interval_to_ms "0m" = Ok 0 /\
  (exists w',
      get_binance_klines 3 utc_fromtimestamp repeating_server [] "BTCUSDT"
        "0m" 0 10
      = Some (w', Ok [kline 5 1 1; kline 5 1 1]) /\
      nonempty_pages w' = [[kline 5 1 1]; [kline 5 1 1]]) /\
  ~ NoDup (map openTime [kline 5 1 1; kline 5 1 1]) /\
  orderly far_future_server /\
  (exists w',
      get_binance_klines 3 utc_fromtimestamp far_future_server [] "BTCUSDT"
        "1m" 0 400000000000000
      = Some (w', Raise (ValueError YearOutOfRange)) /\
      nonempty_pages w' = [[kline 300000000000000 1 1]]).
Proof.
  split; [|split; [reflexivity|split; [|split; [|split]]]].
  - intros w p. unfold repeating_server.
    destruct (Nat.ltb (List.length w) 2 && (startTime p <=? 5)) eqn:E.
    + eexists. split; [reflexivity|]. split.
      * repeat constructor.
      * intros k data' H. injection H as <- <-. simpl.
        apply andb_true_iff in E as [_ E]. lia.
    + eexists. split; [reflexivity|]. split; [constructor|discriminate].
  - eexists. split; reflexivity.
  - simpl. intros H. inversion H as [|x l Hin _]; subst. apply Hin. now left.
  - apply dataset_server_orderly. repeat constructor.
  - eexists. split; reflexivity.
Qed.

(** C1, amended. For an interval token whose step is strictly positive and
    an orderly page provider whose pages end at times from which the next
    cursor can be given as a date (line 78), [get_binance_klines] returns,
    for every large enough fuel, exactly the concatenation in request order
    of the non-empty pages it received; that series is in strictly
    increasing order of open time and holds no open time twice. *)
Theorem get_binance_klines_orderly (fromtimestamp : Clock)
  (server : Endpoint) (symbol interval : string)
  (start_time end_time step : Z) :
  parse_interval_to_ms interval = Ok step ->
  0 < step ->
  orderly server ->
  (forall w p data last,
      server w p = Page data -> last_kline data = Some last ->
      fromtimestamp (openTime last + step) = None) ->
  exists fuel w' klines,
    (forall extra,
        get_binance_klines (fuel + extra) fromtimestamp server [] symbol
          interval start_time end_time = Some (w', Ok klines)) /\
    klines = List.concat (nonempty_pages w') /\
    increasing klines /\
    NoDup (map openTime klines).
Proof.
  intros Hparse Hstep Hord Hclock.
  destruct (fetch_loop_orderly fromtimestamp server symbol interval step
              end_time Hstep Hord Hclock
              (S (Z.to_nat (end_time - start_time))) [] start_time [])
    as (w_new & ks' & Hrun & Hks & Hinc).
  - constructor.
  - intros k [].
  - lia.
  - exists (S (Z.to_nat (end_time - start_time))), w_new, ks'.
    split; [|split; [|split]].
    + intros extra. unfold get_binance_klines. rewrite Hparse.
      apply fetch_loop_fuel_mono. exact Hrun.
    + rewrite concat_nonempty_pages. exact Hks.
    + exact Hinc.
    + apply increasing_NoDup, Hinc.
Qed.

(** Three hourly records served two per page: the download ends and returns
    them in order. *)
Lemma get_binance_klines_orderly_witness :
  exists fuel w' klines,
    (forall extra,
        get_binance_klines (fuel + extra) utc_fromtimestamp
          (dataset_server 2 hourly_data) []
          "BTCUSDT" "1h" 0 10800000 = Some (w', Ok klines)) /\
    klines = List.concat (nonempty_pages w') /\
    increasing klines /\
    NoDup (map openTime klines).
Proof.
  apply (get_binance_klines_orderly utc_fromtimestamp
           (dataset_server 2 hourly_data) "BTCUSDT" "1h" 0 10800000 3600000).
  - reflexivity.
  - lia.
  - apply dataset_server_orderly. repeat constructor.
  - apply dataset_server_cursor.
    intros k [<-|[<-|[<-|[]]]]; reflexivity.
Defined.

(** C2, as stated, fails: a page that moves the cursor backwards (from
    100000 to 60000) is accepted, the run returns normally, and a provider
    that repeats such a page keeps the loop running whatever the fuel; no
    exception is raised in either case. *)
Lemma get_binance_klines_accepts_regression :
  loop_body utc_fromtimestamp regressing_server "BTCUSDT" "1m" 60000 200000
    [] 100000 []
  = Continue
      [({| symbol := "BTCUSDT"; interval := "1m"; startTime := 100000;
           endTime := 200000; limit := 1000 |}, Page [kline 0 1 1])]
      60000 [kline 0 1 1] /\
  (exists w',
      get_binance_klines 2 utc_fromtimestamp regressing_server [] "BTCUSDT"
        "1m" 100000 200000
      = Some (w', Ok [kline 0 1 1])) /\
  (forall fuel,
      get_binance_klines fuel utc_fromtimestamp stuck_server [] "BTCUSDT"
        "1m" 100000 200000
      = None).
Proof.
  split; [reflexivity|]. split; [eexists; reflexivity|].
  intros fuel. unfold get_binance_klines. simpl.
  apply fetch_loop_diverges; [|lia].
  intros w p. exists [kline 0 1 1], (kline 0 1 1).
  split; [reflexivity|]. split; [reflexivity|]. split; [simpl; lia|].
  reflexivity.
Qed.

(** C2, amended. Forward progress is not checked. A pass that receives a
    non-empty page and goes on has appended it and set the cursor to the
    last open time plus the step, whatever the previous cursor was; the
    exceptions the loop raises are the [RequestException]s of the provider
    and those of giving the new cursor as a date (line 78), none for a
    cursor that did not advance; and a provider whose pages always end
    below [end_time - step], at a time that can be given as a date, keeps
    the loop running for every fuel. *)
Theorem fetch_loop_progress_unchecked (fromtimestamp : Clock)
  (server : Endpoint) (symbol interval : string) (step end_time : Z) :
  (forall w c ks w' c' ks',
      loop_body fromtimestamp server symbol interval step end_time w c ks
      = Continue w' c' ks' ->
      exists data last,
        server w {| symbol := symbol; interval := interval; startTime := c;
                    endTime := end_time; limit := 1000 |} = Page data /\
        last_kline data = Some last /\
        c' = openTime last + step /\
        ks' = ks ++ data) /\
  (forall w c ks data last,
      c < end_time ->
      server w {| symbol := symbol; interval := interval; startTime := c;
                  endTime := end_time; limit := 1000 |} = Page data ->
      last_kline data = Some last ->
      fromtimestamp (openTime last + step) = None ->
      exists w',
        loop_body fromtimestamp server symbol interval step end_time w c ks
        = Continue w' (openTime last + step) (ks ++ data)) /\
  (forall fuel w c ks w' e,
      fetch_loop fromtimestamp server symbol interval step end_time fuel
        w c ks
      = Some (w', Raise e) ->
      (exists why, e = RequestException why) \/
      (exists c' te, fromtimestamp c' = Some te /\ e = time_error te)) /\
  ((forall w p, exists data last,
       server w p = Page data /\ last_kline data = Some last /\
       openTime last + step < end_time /\
       fromtimestamp (openTime last + step) = None) ->
   forall fuel w c ks,
     c < end_time ->
     fetch_loop fromtimestamp server symbol interval step end_time fuel
       w c ks = None).
Proof.
  split; [|split; [|split]].
  - intros w c ks w' c' ks' H.
    destruct (loop_body_cases fromtimestamp server symbol interval step
                end_time w c ks)
      as [[_ Hb]|[(_ & why & _ & Hb)|[(_ & _ & Hb)
         |[(_ & d & l & Hs & Hl & _ & Hb)|(_ & d & l & te & _ & _ & _ & Hb)]]]];
      rewrite Hb in H; try discriminate.
    injection H as <- <- <-. exists d, l. auto.
  - intros w c ks data last Hc Hs Hl Hf.
    destruct (loop_body_cases fromtimestamp server symbol interval step
                end_time w c ks)
      as [[? _]|[(_ & why & Hs' & _)|[(_ & Hs' & _)
         |[(_ & d & l & Hs' & Hl' & _ & Hb)
          |(_ & d & l & te & Hs' & Hl' & Hf' & _)]]]];
      try (cbv beta zeta in Hs').
    + lia.
    + congruence.
    + rewrite Hs in Hs'. injection Hs' as ->. discriminate.
    + rewrite Hs in Hs'. injection Hs' as <-.
      rewrite Hl in Hl'. injection Hl' as <-.
      eexists. exact Hb.
    + rewrite Hs in Hs'. injection Hs' as <-.
      rewrite Hl in Hl'. injection Hl' as <-. congruence.
  - intros fuel w c ks w' e. apply fetch_loop_raises.
  - apply fetch_loop_diverges.
Qed.

(** A provider that repeats a record of open time 0 exhausts a thousand
    passes. *)
Lemma fetch_loop_progress_unchecked_witness :
  fetch_loop utc_fromtimestamp stuck_server "BTCUSDT" "1m" 60000 200000
    1000 [] 100000 []
  = None.
Proof.
  destruct (fetch_loop_progress_unchecked utc_fromtimestamp stuck_server
              "BTCUSDT" "1m" 60000 200000) as (_ & _ & _ & H).
  apply H; [|lia].
  intros w p. exists [kline 0 1 1], (kline 0 1 1).
  split; [reflexivity|]. split; [reflexivity|]. split; [simpl; lia|].
  reflexivity.
Defined.

(** C3. If the request of the pass number [n] (counting from 0), should the
    run come to make it, is answered with the empty page,
    [get_binance_klines] ends within [n + 1] passes of the loop, having made
    at most [n + 1] requests. When it ends normally it returns the records
    of the pages received, and either the last page received is empty or the
    cursor has reached [end_time]; when it raises, the last request failed
    or the cursor after the last page cannot be given as a date. And a pass
    leaves the loop normally exactly when the cursor has reached [end_time]
    (no request is made) or the page received is empty. *)
Theorem get_binance_klines_terminates (fromtimestamp : Clock)
  (server : Endpoint) (symbol interval : string)
  (start_time end_time step : Z) (n : nat) :
  parse_interval_to_ms interval = Ok step ->
  (forall w c ks,
      after_passes fromtimestamp server symbol interval step end_time n
        [] start_time [] = Some (w, c, ks) ->
      c < end_time ->
      server w {| symbol := symbol; interval := interval; startTime := c;
                  endTime := end_time; limit := 1000 |} = Page []) ->
  (exists w' r,
      (forall extra,
          get_binance_klines (S n + extra) fromtimestamp server [] symbol
            interval start_time end_time = Some (w', r)) /\
      (List.length w' <= n + 1)%nat /\
      match r with
      | Ok klines =>
          klines = List.concat (pages w') /\
          ((exists w1 p, w' = w1 ++ [(p, Page [])]) \/
           end_time <= final_cursor step start_time w')
      | Raise e =>
          (exists w1 p why,
              w' = w1 ++ [(p, Failed why)] /\ e = RequestException why) \/
          (exists w1 p data last te,
              w' = w1 ++ [(p, Page data)] /\
              last_kline data = Some last /\
              fromtimestamp (openTime last + step) = Some te /\
              e = time_error te)
      end) /\
  (forall step' w c ks w' ks',
      let params := {| symbol := symbol; interval := interval;
                       startTime := c; endTime := end_time;
                       limit := 1000 |} in
      loop_body fromtimestamp server symbol interval step' end_time w c ks
      = Return w' ks'
      <->
      (end_time <= c /\ w' = w /\ ks' = ks) \/
      (c < end_time /\ server w params = Page [] /\
       w' = w ++ [(params, Page [])] /\ ks' = ks)).
Proof.
  intros Hparse Hempty. split.
  - destruct (fetch_loop_ends fromtimestamp server symbol interval step
                end_time (S n) n [] start_time [] Hempty (Nat.lt_succ_diag_r n))
      as (w' & r & Hrun & Hlen & Hr).
    exists w', r. split; [|split; [exact Hlen|]].
    + intros extra. unfold get_binance_klines. rewrite Hparse.
      apply fetch_loop_fuel_mono. exact Hrun.
    + destruct r as [klines|e]; [exact Hr|exact Hr].
  - intros step' w c ks w' ks' params.
    destruct (loop_body_cases fromtimestamp server symbol interval step'
                end_time w c ks)
      as [[Hc Hb]|[(Hc & why & Hs & Hb)|[(Hc & Hs & Hb)
         |[(Hc & d & l & Hs & Hl & Hf & Hb)
          |(Hc & d & l & te & Hs & Hl & Hf & Hb)]]]];
      rewrite Hb; subst params; cbv beta zeta in *; split.
    + intros H. injection H as <- <-. left. auto.
    + intros [(_ & -> & ->)|(? & _)]; [reflexivity|lia].
    + discriminate.
    + intros [(? & _)|(_ & Hs' & _)]; [lia|congruence].
    + intros H. injection H as <- <-. right. auto.
    + intros [(? & _)|(_ & _ & -> & ->)]; [lia|reflexivity].
    + discriminate.
    + intros [(? & _)|(_ & Hs' & _)]; [lia|].
      rewrite Hs in Hs'. injection Hs' as ->. discriminate.
    + discriminate.
    + intros [(? & _)|(_ & Hs' & _)]; [lia|].
      rewrite Hs in Hs'. injection Hs' as ->. discriminate.
Qed.

(** Three hourly records served two per page in a window of one day: the
    third request is answered with the empty page and ends the download. *)
Lemma get_binance_klines_terminates_witness :
  exists w' r,
    (forall extra,
        get_binance_klines (3 + extra) utc_fromtimestamp
          (dataset_server 2 hourly_data) [] "BTCUSDT" "1h" 0 86399999
        = Some (w', r)) /\
    (List.length w' <= 2 + 1)%nat /\
    match r with
    | Ok klines =>
        klines = List.concat (pages w') /\
        ((exists w1 p, w' = w1 ++ [(p, Page [])]) \/
         86399999 <= final_cursor 3600000 0 w')
    | Raise e =>
        (exists w1 p why,
            w' = w1 ++ [(p, Failed why)] /\ e = RequestException why) \/
        (exists w1 p data last te,
            w' = w1 ++ [(p, Page data)] /\
            last_kline data = Some last /\
            utc_fromtimestamp (openTime last + 3600000) = Some te /\
            e = time_error te)
    end.
Proof.
  destruct (get_binance_klines_terminates utc_fromtimestamp
              (dataset_server 2 hourly_data) "BTCUSDT" "1h"
              0 86399999 3600000 2) as [H _].
  - reflexivity.
  - intros w c ks Ha _. vm_compute in Ha. injection Ha as <- <- <-.
    reflexivity.
  - exact H.
Defined.

(** ** The NumPy operations *)

Module NpFacts.

Import Np.
Local Open Scope Q_scope.

Lemma Qlt_bool_iff (x y : Q) : Qlt_bool x y = true <-> x < y.
Proof.
  unfold Qlt_bool. rewrite negb_true_iff, <- not_true_iff_false, Qle_bool_iff.
  split; [apply Qnot_le_lt|apply Qlt_not_le].
Qed.

Lemma Qlt_bool_false (x y : Q) : Qlt_bool x y = false <-> y <= x.
Proof.
  unfold Qlt_bool. rewrite negb_false_iff. apply Qle_bool_iff.
Qed.

(** *** [argmax] *)

Lemma argmax_from_first_max (l pre : list Q) (best i : nat) (v : Q) :
  i = List.length pre -> v = nth best pre 0 ->
  Spec.first_max pre best ->
  Spec.first_max (pre ++ l) (argmax_from best v i l).
Proof.
  revert pre best i v.
  induction l as [|x l IH]; intros pre best i v -> -> Hfm; simpl.
  - rewrite app_nil_r. exact Hfm.
  - destruct Hfm as (Hlt & Hall & Hbefore).
    replace (pre ++ x :: l) with ((pre ++ [x]) ++ l)
      by (rewrite <- app_assoc; reflexivity).
    assert (Hlen : S (List.length pre) = List.length (pre ++ [x]))
      by (rewrite length_app; simpl; lia).
    assert (Hx : nth (List.length pre) (pre ++ [x]) 0 = x)
      by (rewrite app_nth2, Nat.sub_diag; [reflexivity|lia]).
    assert (Hb : nth best (pre ++ [x]) 0 = nth best pre 0)
      by (rewrite app_nth1; [reflexivity|lia]).
    destruct (Qlt_bool (nth best pre 0) x) eqn:E.
    + apply Qlt_bool_iff in E.
      apply IH; [exact Hlen|symmetry; exact Hx|].
      unfold Spec.first_max. rewrite <- Hlen, Hx. split; [lia|]. split.
      * intros j Hj. destruct (Nat.eq_dec j (List.length pre)) as [->|Hne].
        -- rewrite Hx. apply Qle_refl.
        -- rewrite app_nth1 by lia. apply Qlt_le_weak.
           eapply Qle_lt_trans; [apply Hall; lia|exact E].
      * intros j Hj. rewrite app_nth1 by lia.
        eapply Qle_lt_trans; [apply Hall; lia|exact E].
    + apply Qlt_bool_false in E.
      apply IH; [exact Hlen|symmetry; exact Hb|].
      unfold Spec.first_max. rewrite <- Hlen, Hb. split; [lia|]. split.
      * intros j Hj. destruct (Nat.eq_dec j (List.length pre)) as [->|Hne].
        -- rewrite Hx. exact E.
        -- rewrite app_nth1 by lia. apply Hall. lia.
      * intros j Hj. rewrite app_nth1 by lia. apply Hbefore, Hj.
Qed.

(** [argmax] gives the first position of a greatest element. *)
Lemma argmax_first_max (l : list Q) : l <> [] -> Spec.first_max l (argmax l).
Proof.
  destruct l as [|x l]; [congruence|]. intros _. simpl.
  apply (argmax_from_first_max l [x] 0); [reflexivity|reflexivity|].
  split; [simpl; lia|]. split.
  - intros [|j] Hj; [apply Qle_refl|simpl in Hj; lia].
  - intros j Hj; lia.
Qed.

(** *** [bincount] *)

Lemma length_add_at (i : nat) (w : Q) (n : list Q) :
  List.length (add_at i w n) = List.length n.
Proof.
  revert i. induction n as [|x n IH]; intros [|i]; simpl; auto.
Qed.

Lemma nth_add_at (i j : nat) (w : Q) (n : list Q) :
  (i < List.length n)%nat ->
  nth j (add_at i w n) 0 == nth j n 0 + (if Nat.eqb i j then w else 0).
Proof.
  revert i j. induction n as [|x n IH]; intros i j Hi; simpl in Hi; [lia|].
  destruct i as [|i], j as [|j]; simpl; try lra.
  apply IH. lia.
Qed.

Lemma fold_add_at (pairs : list (Z * Q)) (n : list Q) (j : nat) :
  (forall iw, In iw pairs -> (Z.to_nat (fst iw) < List.length n)%nat) ->
  let n' := fold_left (fun n iw => add_at (Z.to_nat (fst iw)) (snd iw) n)
              pairs n in
  List.length n' = List.length n /\
  nth j n' 0 == nth j n 0 + Spec.weight_at j pairs.
Proof.
  revert n. induction pairs as [|[i w] pairs IH]; intros n Hin; simpl.
  - split; [reflexivity|]. unfold Spec.weight_at. simpl. lra.
  - destruct (IH (add_at (Z.to_nat i) w n)) as [Hlen Hnth].
    + intros iw Hiw. rewrite length_add_at. apply Hin. now right.
    + split; [rewrite Hlen; apply length_add_at|].
      simpl in Hnth. rewrite Hnth.
      rewrite nth_add_at by (apply (Hin (i, w)); now left).
      unfold Spec.weight_at. simpl.
      destruct (Nat.eqb (Z.to_nat i) j); simpl; lra.
Qed.

Lemma nth_repeat_0 (j m : nat) : nth j (repeat 0 m) 0 = 0.
Proof.
  revert j. induction m as [|m IH]; intros [|j]; simpl; auto.
Qed.

(** *** [min] and [max] *)

Lemma amin_spec (xs : list Q) (x : Q) :
  In (amin x xs) (x :: xs) /\
  forall y, In y (x :: xs) -> amin x xs <= y.
Proof.
  revert x. induction xs as [|z xs IH]; intros x.
  - simpl. split; [now left|]. intros y [<-|[]]. apply Qle_refl.
  - unfold amin. simpl. fold (amin (if Qlt_bool z x then z else x) xs).
    destruct (IH (if Qlt_bool z x then z else x)) as [Hin Hle].
    split.
    + destruct Hin as [Hin|Hin]; [|right; right; exact Hin].
      rewrite <- Hin. destruct (Qlt_bool z x); simpl; auto.
    + assert (Hm : (if Qlt_bool z x then z else x) <= x /\
                   (if Qlt_bool z x then z else x) <= z).
      { destruct (Qlt_bool z x) eqn:E.
        - apply Qlt_bool_iff in E. split; [apply Qlt_le_weak, E|apply Qle_refl].
        - apply Qlt_bool_false in E. split; [apply Qle_refl|exact E]. }
      pose proof (Hle _ (or_introl eq_refl)) as H0.
      intros y [<-|[<-|Hy]].
      * eapply Qle_trans; [exact H0|apply Hm].
      * eapply Qle_trans; [exact H0|apply Hm].
      * apply Hle. now right.
Qed.

Lemma amax_spec (xs : list Q) (x : Q) :
  In (amax x xs) (x :: xs) /\
  forall y, In y (x :: xs) -> y <= amax x xs.
Proof.
  revert x. induction xs as [|z xs IH]; intros x.
  - simpl. split; [now left|]. intros y [<-|[]]. apply Qle_refl.
  - unfold amax. simpl. fold (amax (if Qlt_bool x z then z else x) xs).
    destruct (IH (if Qlt_bool x z then z else x)) as [Hin Hle].
    split.
    + destruct Hin as [Hin|Hin]; [|right; right; exact Hin].
      rewrite <- Hin. destruct (Qlt_bool x z); simpl; auto.
    + assert (Hm : x <= (if Qlt_bool x z then z else x) /\
                   z <= (if Qlt_bool x z then z else x)).
      { destruct (Qlt_bool x z) eqn:E.
        - apply Qlt_bool_iff in E. split; [apply Qlt_le_weak, E|apply Qle_refl].
        - apply Qlt_bool_false in E. split; [apply Qle_refl|exact E]. }
      pose proof (Hle _ (or_introl eq_refl)) as H0.
      intros y [<-|[<-|Hy]].
      * eapply Qle_trans; [apply Hm|exact H0].
      * eapply Qle_trans; [apply Hm|exact H0].
      * apply Hle. now right.
Qed.

(** *** [linspace] *)

Lemma inject_Z_pos (z : Z) : (0 < z)%Z -> 0 < inject_Z z.
Proof. intros H. unfold Qlt. simpl. lia. Qed.

Lemma nth_map_seq (h : nat -> Q) (n i : nat) :
  (i < n)%nat -> nth i (map h (seq 0 n)) 0 = h i.
Proof.
  intros Hi.
  rewrite (nth_indep _ 0 (h O)) by (rewrite length_map, length_seq; exact Hi).
  rewrite map_nth, seq_nth by exact Hi. reflexivity.
Qed.

(** [linspace first last (bins + 1)] holds [bins + 1] values, and the
    value at position [i] is edge [i] of the equal-width partition. *)
Lemma linspace_edges (first last : Q) (bins : Z) :
  (1 <= bins)%Z ->
  List.length (linspace first last (bins + 1)) = S (Z.to_nat bins) /\
  forall i, (0 <= i <= bins)%Z ->
    item (linspace first last (bins + 1)) i == Spec.edge first last bins i.
Proof.
  intros Hbins. unfold linspace.
  replace (bins + 1 - 1)%Z with bins by lia.
  destruct (Z.ltb_spec 0 bins) as [_|?]; [|lia].
  destruct (Z.ltb_spec 1 (bins + 1)) as [_|?]; [|lia].
  replace (Z.to_nat (bins + 1)) with (S (Z.to_nat bins)) by lia.
  assert (Hn : ~ inject_Z bins == 0).
  { intros E. pose proof (inject_Z_pos bins ltac:(lia)) as Hp.
    rewrite E in Hp. apply (Qlt_irrefl 0), Hp. }
  set (n := Z.to_nat bins).
  set (step := (last - first) / inject_Z bins).
  assert (Hy : exists h : nat -> Q,
             (forall i, h i == Spec.edge first last bins (Z.of_nat i)) /\
             map (fun v => v + first)
               (if Qeq_bool step 0
                then map (fun i => i / inject_Z bins * (last - first))
                       (map (fun i => inject_Z (Z.of_nat i)) (seq 0 (S n)))
                else map (fun i => i * step)
                       (map (fun i => inject_Z (Z.of_nat i)) (seq 0 (S n))))
             = map h (seq 0 (S n))).
  { destruct (Qeq_bool step 0).
    - exists (fun i => inject_Z (Z.of_nat i) / inject_Z bins * (last - first)
                       + first).
      split; [|rewrite !map_map; reflexivity].
      intros i. unfold Spec.edge. field. exact Hn.
    - exists (fun i => inject_Z (Z.of_nat i) * step + first).
      split; [|rewrite !map_map; reflexivity].
      intros i. unfold Spec.edge, step. field. exact Hn. }
  destruct Hy as (h & Hh & ->).
  rewrite seq_S, map_app. simpl. rewrite removelast_last.
  split.
  - rewrite length_app, length_map, length_seq. simpl. lia.
  - intros i Hi. unfold item.
    destruct (Z.eq_dec i bins) as [->|Hne].
    + fold n. rewrite app_nth2 by (rewrite length_map, length_seq; lia).
      rewrite length_map, length_seq, Nat.sub_diag. simpl.
      unfold Spec.edge. field. exact Hn.
    + rewrite app_nth1 by (rewrite length_map, length_seq; lia).
      rewrite nth_map_seq by lia. rewrite Hh.
      rewrite Z2Nat.id by lia. reflexivity.
Qed.

(** *** [bin_index] *)

Lemma to_intp_floor (f : Q) : 0 <= f -> to_intp f = Qfloor f.
Proof.
  destruct f as [n d]. unfold Qle, to_intp, Qfloor. simpl. intros H.
  apply Z.quot_div_nonneg; lia.
Qed.

Section Bins.

Variables first last : Q.
Variable bins : Z.
Variable edges : list Q.
Hypothesis Hbins : (1 <= bins)%Z.
Hypothesis Hrange : first < last.
Hypothesis Hedges :
  forall i, (0 <= i <= bins)%Z ->
    item edges i == Spec.edge first last bins i.

Local Abbreviation width := ((last - first) / inject_Z bins).
Local Abbreviation position x :=
  ((x - first) / (last - first) * inject_Z bins).

Lemma bins_nonzero : ~ inject_Z bins == 0.
Proof.
  intros E. pose proof (inject_Z_pos bins ltac:(lia)) as Hp.
  rewrite E in Hp. apply (Qlt_irrefl 0), Hp.
Qed.

Lemma width_pos : 0 < width.
Proof.
  apply Qlt_shift_div_l; [apply inject_Z_pos; lia|]. lra.
Qed.

Lemma position_spec (x : Q) : x == first + position x * width.
Proof. field. split; [apply bins_nonzero|lra]. Qed.

Lemma edge_le_iff (x : Q) (i : Z) :
  Spec.edge first last bins i <= x <-> inject_Z i <= position x.
Proof.
  unfold Spec.edge. rewrite (position_spec x) at 1.
  pose proof width_pos as Hw.
  set (w := width) in *. set (f := position x). set (a := inject_Z i).
  clearbody w f a.
  rewrite <- (Qmult_le_r a f w Hw). split; intros H; lra.
Qed.

Lemma edge_gt_iff (x : Q) (i : Z) :
  x < Spec.edge first last bins i <-> position x < inject_Z i.
Proof.
  unfold Spec.edge. rewrite (position_spec x) at 1.
  pose proof width_pos as Hw.
  set (w := width) in *. set (f := position x). set (a := inject_Z i).
  clearbody w f a.
  rewrite <- (Qmult_lt_r f a w Hw). split; intros H; lra.
Qed.

Lemma edge_ge_iff (x : Q) (i : Z) :
  x <= Spec.edge first last bins i <-> position x <= inject_Z i.
Proof.
  unfold Spec.edge. rewrite (position_spec x) at 1.
  pose proof width_pos as Hw.
  set (w := width) in *. set (f := position x). set (a := inject_Z i).
  clearbody w f a.
  rewrite <- (Qmult_le_r f a w Hw). split; intros H; lra.
Qed.

Lemma edge_mono (i j : Z) :
  (i <= j)%Z -> Spec.edge first last bins i <= Spec.edge first last bins j.
Proof.
  intros H. unfold Spec.edge. rewrite Zle_Qle in H.
  apply (Qmult_le_r _ _ width width_pos) in H.
  set (w := width) in *. set (a := inject_Z i) in *.
  set (b := inject_Z j) in *. clearbody w a b. lra.
Qed.

Lemma edge_first : Spec.edge first last bins 0 == first.
Proof. unfold Spec.edge. field. apply bins_nonzero. Qed.

Lemma edge_last : Spec.edge first last bins bins == last.
Proof. unfold Spec.edge. field. apply bins_nonzero. Qed.

(** Within the range, the index computed by [bin_index] is a bin, and
    the value lies in that bin. *)
Lemma bin_index_in_bin (x : Q) :
  first <= x -> x <= last ->
  (0 <= bin_index edges first last bins x < bins)%Z /\
  Spec.in_bin first last bins (bin_index edges first last bins x) x = true.
Proof.
  intros Hlo Hhi.
  assert (H0 : 0 <= position x).
  { change 0 with (inject_Z 0). apply edge_le_iff.
    rewrite edge_first. exact Hlo. }
  assert (Hn : position x <= inject_Z bins).
  { apply edge_ge_iff. rewrite edge_last. exact Hhi. }
  pose proof (Qfloor_le (position x)) as Hfl.
  pose proof (Qlt_floor (position x)) as Hfu.
  assert (Ht0 : (0 <= Qfloor (position x))%Z).
  { change 0%Z with (Qfloor 0). apply Qfloor_resp_le, H0. }
  assert (Htn : (Qfloor (position x) <= bins)%Z).
  { pose proof (Qfloor_resp_le _ _ Hn) as H. rewrite Qfloor_Z in H.
    exact H. }
  unfold bin_index. rewrite (to_intp_floor _ H0).
  set (t := Qfloor (position x)) in *.
  destruct (Z.eqb_spec t bins) as [Et|Et].
  - (* the value is the last edge *)
    assert (Hprev : Spec.edge first last bins (bins - 1) <= x).
    { apply edge_le_iff. eapply Qle_trans; [|exact Hfl].
      rewrite <- Zle_Qle. lia. }
    rewrite !Et.
    destruct (Qlt_bool x (item edges (bins - 1))) eqn:E1.
    { apply Qlt_bool_iff in E1. rewrite Hedges in E1 by lia. lra. }
    rewrite Z.eqb_refl, andb_false_r.
    split; [lia|]. unfold Spec.in_bin.
    rewrite Z.eqb_refl.
    apply andb_true_iff. split; [apply Qle_bool_iff, Hprev|].
    apply orb_true_iff. right. apply Qle_bool_iff, Hhi.
  - destruct (Qlt_bool x (item edges t)) eqn:E1.
    { apply Qlt_bool_iff in E1. rewrite Hedges in E1 by lia.
      apply edge_gt_iff in E1. lra. }
    destruct (Qle_bool (item edges (t + 1)) x) eqn:E2.
    { apply Qle_bool_iff in E2. rewrite Hedges in E2 by lia.
      apply edge_le_iff in E2. lra. }
    simpl. split; [lia|]. unfold Spec.in_bin.
    apply andb_true_iff. split.
    + apply Qle_bool_iff, edge_le_iff. exact Hfl.
    + apply orb_true_iff. left. apply Qlt_bool_iff, edge_gt_iff. exact Hfu.
Qed.

(** The bins are disjoint. *)
Lemma in_bin_unique (x : Q) (i j : Z) :
  (0 <= i < bins)%Z -> (0 <= j < bins)%Z ->
  Spec.in_bin first last bins i x = true ->
  Spec.in_bin first last bins j x = true ->
  i = j.
Proof.
  assert (Hlt : forall a b, (0 <= a < bins)%Z -> (0 <= b < bins)%Z ->
             Spec.in_bin first last bins a x = true ->
             Spec.in_bin first last bins b x = true ->
             ~ (a < b)%Z).
  { intros a b Ha Hb Hia Hib Hab. unfold Spec.in_bin in *.
    apply andb_true_iff in Hia as [_ Hia], Hib as [Hib _].
    apply Qle_bool_iff in Hib.
    apply orb_true_iff in Hia as [Hia|Hia].
    - apply Qlt_bool_iff in Hia.
      pose proof (edge_mono (a + 1) b ltac:(lia)). lra.
    - apply andb_true_iff in Hia as [Hia _].
      apply Z.eqb_eq in Hia. lia. }
  intros Hi Hj Hbi Hbj.
  pose proof (Hlt i j Hi Hj Hbi Hbj). pose proof (Hlt j i Hj Hi Hbj Hbi).
  lia.
Qed.

Lemma bin_index_iff (x : Q) (i : Z) :
  first <= x -> x <= last -> (0 <= i < bins)%Z ->
  (bin_index edges first last bins x = i <->
   Spec.in_bin first last bins i x = true).
Proof.
  intros Hlo Hhi Hi.
  destruct (bin_index_in_bin x Hlo Hhi) as [Hr Hin].
  split; [intros <-; exact Hin|].
  intros H. eapply in_bin_unique; eassumption.
Qed.

(** *** The accumulated weights *)

Local Abbreviation indexed := (Spec.indexed first last bins edges).

Lemma combine_indexed (klines : list Kline) :
  combine
    (map (fun k => bin_index edges first last bins (closePrice k)) klines)
    (map (fun k => volume k) klines)
  = indexed klines.
Proof.
  unfold Spec.indexed. induction klines as [|k klines IH]; simpl;
    [reflexivity|]. rewrite IH. reflexivity.
Qed.

Lemma weight_at_bin_volume (klines : list Kline) (i : Z) :
  (forall k, In k klines -> first <= closePrice k /\ closePrice k <= last) ->
  (0 <= i < bins)%Z ->
  Spec.weight_at (Z.to_nat i) (indexed klines)
  == Spec.bin_volume (Spec.in_bin first last bins) klines i.
Proof.
  intros Hin Hi. unfold Spec.weight_at, Spec.bin_volume, Spec.indexed.
  induction klines as [|k klines IH]; simpl; [reflexivity|].
  destruct (Hin k (or_introl eq_refl)) as [Hlo Hhi].
  destruct (bin_index_in_bin (closePrice k) Hlo Hhi) as [Hr _].
  pose proof (bin_index_iff (closePrice k) i Hlo Hhi Hi) as Hiff.
  assert (IH' := IH (fun k' Hk' => Hin k' (or_intror Hk'))).
  destruct (Spec.in_bin first last bins i (closePrice k)) eqn:Eb.
  - destruct Hiff as [_ Heq]. rewrite (Heq eq_refl), Nat.eqb_refl.
    simpl. rewrite IH'. reflexivity.
  - destruct (Nat.eqb_spec
                (Z.to_nat (bin_index edges first last bins (closePrice k)))
                (Z.to_nat i)) as [E|E].
    + apply Z2Nat.inj in E; [|lia|lia].
      destruct Hiff as [Hf _]. specialize (Hf E). discriminate.
    + exact IH'.
Qed.

Lemma bincount_indexed (klines : list Kline) :
  (forall k, In k klines -> first <= closePrice k /\ closePrice k <= last) ->
  let hist :=
    fold_left (fun n iw => add_at (Z.to_nat (fst iw)) (snd iw) n)
      (indexed klines) (repeat 0 (Z.to_nat bins)) in
  List.length hist = Z.to_nat bins /\
  forall i, (0 <= i < bins)%Z ->
    nth (Z.to_nat i) hist 0
    == Spec.bin_volume (Spec.in_bin first last bins) klines i.
Proof.
  intros Hin hist.
  assert (Hrange' : forall iw, In iw (indexed klines) ->
             (Z.to_nat (fst iw) < List.length (repeat 0%Q (Z.to_nat bins)))%nat).
  { intros iw Hiw. unfold Spec.indexed in Hiw. apply in_map_iff in Hiw.
    destruct Hiw as (k & <- & Hk). destruct (Hin k Hk) as [Hlo Hhi].
    destruct (bin_index_in_bin (closePrice k) Hlo Hhi) as [Hr _].
    rewrite repeat_length. simpl. lia. }
  split.
  - destruct (fold_add_at (indexed klines) _ O Hrange') as [Hlen _].
    unfold hist. rewrite Hlen. apply repeat_length.
  - intros i Hi.
    destruct (fold_add_at (indexed klines) _ (Z.to_nat i) Hrange')
      as [_ Hnth].
    unfold hist. rewrite Hnth, nth_repeat_0.
    rewrite weight_at_bin_volume by assumption. lra.
Qed.

End Bins.

Lemma filter_all {A} (f : A -> bool) (l : list A) :
  (forall x, In x l -> f x = true) -> filter f l = l.
Proof.
  induction l as [|a l IH]; simpl; intros H; [reflexivity|].
  rewrite (H a (or_introl eq_refl)), IH; [reflexivity|].
  intros x Hx. apply H. now right.
Qed.

Lemma combine_prices_volumes (klines : list Kline) :
  combine (map closePrice klines) (map volume klines)
  = map (fun k => (closePrice k, volume k)) klines.
Proof.
  induction klines as [|k klines IH]; simpl; [reflexivity|].
  rewrite IH. reflexivity.
Qed.

(** The range that [histogram] partitions is not empty and holds every
    price. *)
Lemma price_range_spec (klines : list Kline) :
  klines <> [] ->
  fst (Spec.price_range klines) < snd (Spec.price_range klines) /\
  forall k, In k klines ->
    fst (Spec.price_range klines) <= closePrice k /\
    closePrice k <= snd (Spec.price_range klines).
Proof.
  intros Hne. unfold Spec.price_range.
  destruct klines as [|k0 klines]; [congruence|].
  change (map closePrice (k0 :: klines))
    with (closePrice k0 :: map closePrice klines).
  cbv iota beta.
  destruct (amin_spec (map closePrice klines) (closePrice k0)) as [_ Hmin].
  destruct (amax_spec (map closePrice klines) (closePrice k0)) as [_ Hmax].
  set (lo := amin (closePrice k0) (map closePrice klines)) in *.
  set (hi := amax (closePrice k0) (map closePrice klines)) in *.
  assert (Hb : forall k, In k (k0 :: klines) ->
             lo <= closePrice k /\ closePrice k <= hi).
  { intros k Hk. split; [apply Hmin|apply Hmax];
      change (closePrice k0 :: map closePrice klines)
        with (map closePrice (k0 :: klines));
      apply in_map, Hk. }
  destruct (Hb k0 (or_introl eq_refl)) as [H1 H2].
  destruct (Qeq_bool lo hi) eqn:E; simpl.
  - apply Qeq_bool_iff in E. split; [lra|].
    intros k Hk. destruct (Hb k Hk). split; lra.
  - apply Qeq_bool_neq in E. split; [|exact Hb].
    apply Qle_lteq in H1, H2.
    destruct (Qlt_le_dec lo hi) as [Hlt|Hge]; [exact Hlt|].
    exfalso. apply E. apply Qle_antisym; [|exact Hge].
    eapply Qle_trans; [apply (Hb k0); now left|apply (Hb k0); now left].
Qed.

(** What [histogram] returns for a non-empty series and at least one
    bin: the edges of the equal-width partition of the range, and per
    bin the volume of the records whose price lies in it. *)
Lemma histogram_spec (klines : list Kline) (bins : Z) :
  klines <> [] -> (1 <= bins)%Z ->
  let lo := fst (Spec.price_range klines) in
  let hi := snd (Spec.price_range klines) in
  exists hist edges,
    histogram (map closePrice klines) bins (map volume klines)
    = Ok (hist, edges) /\
    List.length hist = Z.to_nat bins /\
    (forall i, (0 <= i <= bins)%Z ->
       item edges i == Spec.edge lo hi bins i) /\
    (forall i, (0 <= i < bins)%Z ->
       nth (Z.to_nat i) hist 0
       == Spec.bin_volume (Spec.in_bin lo hi bins) klines i).
Proof.
  intros Hne Hbins lo hi.
  destruct (price_range_spec klines Hne) as [Hlt Hb].
  fold lo hi in Hlt, Hb.
  unfold histogram.
  destruct (Z.ltb_spec bins 1) as [?|_]; [lia|].
  assert (Houter :
    (let outer := match map closePrice klines with
                  | [] => (0, 1)
                  | x :: xs => (amin x xs, amax x xs)
                  end in
     if Qeq_bool (fst outer) (snd outer)
     then (fst outer - (1 # 2), snd outer + (1 # 2)) else outer)
    = (lo, hi)).
  { unfold lo, hi, Spec.price_range.
    destruct (map closePrice klines) as [|x xs]; simpl.
    - reflexivity.
    - destruct (Qeq_bool (amin x xs) (amax x xs)); reflexivity. }
  cbv zeta in Houter. cbv zeta. rewrite Houter.
  cbn [fst snd].
  destruct (linspace_edges lo hi bins Hbins) as [_ Hedges].
  rewrite combine_prices_volumes.
  rewrite filter_all.
  2:{ intros xw Hxw. apply in_map_iff in Hxw as (k & <- & Hk).
      destruct (Hb k Hk) as [H1 H2]. simpl.
      apply andb_true_iff. split; apply Qle_bool_iff; assumption. }
  eexists _, _. split; [reflexivity|].
  rewrite !map_map. cbn [fst snd].
  unfold bincount.
  rewrite combine_indexed.
  destruct (bincount_indexed lo hi bins (linspace lo hi (bins + 1))
              Hbins Hlt Hedges klines Hb) as [Hlen Hnth].
  split; [exact Hlen|]. split; [exact Hedges|exact Hnth].
Qed.

End NpFacts.

(** ** PocCalculator *)

Section Poc.

Import Np NpFacts.
Local Open Scope Q_scope.

(** For a non-empty series [calculate_poc] is the midpoint of the edges
    around the [argmax] of the histogram. *)
Lemma calculate_poc_unfold (klines : list Kline) (bins : Z)
  (hist edges : list Q) :
  klines <> [] ->
  histogram (map closePrice klines) bins (map volume klines)
  = Ok (hist, edges) ->
  calculate_poc klines bins
  = Ok ((nth (argmax hist) edges 0 + nth (argmax hist + 1) edges 0) / 2).
Proof.
  intros Hne Hh. destruct klines as [|k klines]; [congruence|].
  unfold calculate_poc. rewrite Hh. reflexivity.
Qed.

(** The bin that [calculate_poc] selects, in terms of the partition of the
    price range. *)
Lemma calculate_poc_selects (klines : list Kline) (bins : Z) :
  klines <> [] -> (1 <= bins)%Z ->
  let lo := fst (Spec.price_range klines) in
  let hi := snd (Spec.price_range klines) in
  let vol := Spec.bin_volume (Spec.in_bin lo hi bins) klines in
  exists r i,
    calculate_poc klines bins = Ok r /\
    (0 <= i < bins)%Z /\
    r == Spec.midpoint lo hi bins i /\
    (forall j, (0 <= j < bins)%Z -> vol j <= vol i) /\
    (forall j, (0 <= j < i)%Z -> vol j < vol i).
Proof.
  intros Hne Hbins lo hi vol.
  destruct (histogram_spec klines bins Hne Hbins)
    as (hist & edges & Hh & Hlen & Hedges & Hnth).
  fold lo hi in Hedges, Hnth. fold vol in Hnth.
  assert (Hhist : hist <> []).
  { intros ->. simpl in Hlen. lia. }
  destruct (argmax_first_max hist Hhist) as (Hlt & Hall & Hbefore).
  set (idx := argmax hist) in *.
  exists ((nth idx edges 0 + nth (idx + 1) edges 0) / 2), (Z.of_nat idx).
  split; [apply calculate_poc_unfold; assumption|].
  split; [lia|]. split; [|split].
  - unfold Spec.midpoint.
    rewrite <- (Hedges (Z.of_nat idx)) by lia.
    rewrite <- (Hedges (Z.of_nat idx + 1)%Z) by lia.
    unfold item. rewrite Nat2Z.id.
    replace (Z.to_nat (Z.of_nat idx + 1)) with (idx + 1)%nat by lia.
    reflexivity.
  - intros j Hj. rewrite <- (Hnth j), <- (Hnth (Z.of_nat idx)) by lia.
    rewrite Nat2Z.id. apply Hall. lia.
  - intros j Hj. rewrite <- (Hnth j), <- (Hnth (Z.of_nat idx)) by lia.
    rewrite Nat2Z.id. apply Hbefore. lia.
Qed.

End Poc.

(** C6. On the empty series [calculate_poc] returns 0.0 without raising,
    whatever the number of bins: [np.histogram] is not reached, although it
    would raise for a number of bins below 1. *)
Theorem calculate_poc_empty :
  (forall bins, calculate_poc [] bins = Ok 0%Q) /\
  calculate_poc [] default_bins = Ok 0%Q /\
  Np.histogram [] 0 [] = Raise (ValueError HistogramBins).
Proof. repeat split. Qed.










(** ** The trace of a download *)

Section Trace.

Variable fromtimestamp : Clock.
Variable server : Endpoint.
Variables (symbol_ interval_ : string).
Variable interval_ms : Z.
Variable end_time : Z.

Local Abbreviation chain :=
  (chained server symbol_ interval_ interval_ms end_time).
Local Abbreviation loop :=
  (fetch_loop fromtimestamp server symbol_ interval_ interval_ms end_time).

(** Every run of the loop that ends leaves a chained trace; a normal end
    returns what it had plus the records received, and an exception is the
    failure of the last request or that of the date conversion after the
    last page. *)
Lemma fetch_loop_trace (fuel : nat) (w : World) (c : Z) (ks : list Kline)
  (w' : World) (r : result (list Kline)) :
  loop fuel w c ks = Some (w', r) ->
  exists w_new,
    w' = w ++ w_new /\
    chain w c w_new /\
    ends_with fromtimestamp interval_ms w_new r /\
    (forall ks', r = Ok ks' -> ks' = ks ++ records w_new).
Proof.
  revert w c ks. induction fuel as [|fuel IH]; simpl; intros w c ks H;
    [discriminate|].
  destruct (loop_body_cases fromtimestamp server symbol_ interval_
              interval_ms end_time w c ks)
    as [[Hc Hb]|[(Hc & why & Hs & Hb)|[(Hc & Hs & Hb)
       |[(Hc & d & l & Hs & Hl & Hf & Hb)
        |(Hc & d & l & te & Hs & Hl & Hf & Hb)]]]];
    cbv beta zeta in Hb; rewrite Hb in H.
  - injection H as <- <-. exists []. rewrite !app_nil_r.
    split; [reflexivity|]. split; [exact I|]. split; [intros p why []|].
    intros ks' E. injection E as <-. reflexivity.
  - injection H as <- <-. cbv beta zeta in Hs.
    exists [(request_at symbol_ interval_ end_time c, Failed why)].
    split; [reflexivity|].
    split; [simpl; auto|]. split.
    + left. exists [], (request_at symbol_ interval_ end_time c), why. auto.
    + intros ks' E. discriminate.
  - injection H as <- <-. cbv beta zeta in Hs.
    exists [(request_at symbol_ interval_ end_time c, Page [])].
    split; [reflexivity|].
    split; [simpl; auto|]. split.
    + intros p why' [E|[]]. discriminate.
    + intros ks' E. injection E as <-. unfold records. simpl.
      rewrite app_nil_r. reflexivity.
  - cbv beta zeta in Hs.
    apply IH in H as (w_new & -> & Hch & Hend & Hks).
    exists ((request_at symbol_ interval_ end_time c, Page d) :: w_new).
    split; [rewrite <- app_assoc; reflexivity|].
    split; [simpl; rewrite Hl; auto|]. split.
    + destruct r as [ks'|e]; simpl in *.
      * intros p why [E|Hin]; [discriminate|]. eapply Hend, Hin.
      * destruct Hend as [(w1 & p & why & -> & ->)
                         |(w1 & p & d' & l' & te & -> & Hl' & Hf' & ->)].
        -- left.
           exists ((request_at symbol_ interval_ end_time c, Page d) :: w1),
             p, why.
           auto.
        -- right.
           exists ((request_at symbol_ interval_ end_time c, Page d) :: w1),
             p, d', l', te.
           auto.
    + intros ks' E. rewrite (Hks ks' E). unfold records, pages. simpl.
      rewrite <- app_assoc. reflexivity.
  - injection H as <- <-. cbv beta zeta in Hs.
    exists [(request_at symbol_ interval_ end_time c, Page d)].
    split; [reflexivity|].
    split; [simpl; rewrite Hl; auto|]. split.
    + right. exists [], (request_at symbol_ interval_ end_time c), d, l, te.
      auto.
    + intros ks' E. discriminate.
Qed.

(** Facts read off a chained trace. *)

Lemma chained_requests (h : World) (c : Z) (w : World) (p : Params)
  (r : Response) :
  chain h c w -> In (p, r) w ->
  symbol p = symbol_ /\ interval p = interval_ /\ endTime p = end_time /\
  limit p = 1000 /\ startTime p < end_time.
Proof.
  revert h c. induction w as [|[p0 r0] w IH]; intros h c Hch Hin;
    [destruct Hin|].
  simpl in Hch. destruct Hch as (-> & Hc & _ & Hrest).
  destruct Hin as [E|Hin].
  - injection E as <- <-. simpl. auto.
  - destruct r0 as [data|why]; [|subst w; destruct Hin].
    destruct (last_kline data) as [last|]; [|subst w; destruct Hin].
    eapply IH; eassumption.
Qed.

(** Each exchange holds the answer of the provider to the request, given
    the exchanges before it. *)
Lemma chained_answers (h : World) (c : Z) (w1 w2 : World) (p : Params)
  (r : Response) :
  chain h c (w1 ++ (p, r) :: w2) -> r = server (h ++ w1) p.
Proof.
  revert h c. induction w1 as [|[p0 r0] w1 IH]; intros h c Hch.
  - simpl in Hch. rewrite app_nil_r. apply Hch.
  - simpl in Hch. destruct Hch as (_ & _ & _ & Hrest).
    destruct r0 as [data|why]; [|destruct w1; discriminate].
    destruct (last_kline data) as [last|]; [|destruct w1; discriminate].
    apply IH in Hrest. rewrite <- app_assoc in Hrest. exact Hrest.
Qed.

(** Two requests in a row: the first was answered with a page that holds
    records, and the second starts at its last open time plus the step. *)
Lemma chained_next (h : World) (c : Z) (w1 w2 : World) (p1 p2 : Params)
  (r1 r2 : Response) :
  chain h c (w1 ++ (p1, r1) :: (p2, r2) :: w2) ->
  exists data last,
    r1 = Page data /\ last_kline data = Some last /\
    startTime p2 = openTime last + interval_ms.
Proof.
  revert h c. induction w1 as [|[p0 r0] w1 IH]; intros h c Hch.
  - simpl in Hch. destruct Hch as (_ & _ & _ & Hrest).
    destruct r1 as [data|why]; [|discriminate].
    destruct (last_kline data) as [last|] eqn:Hl; [|discriminate].
    destruct Hrest as (-> & _). exists data, last. auto.
  - simpl in Hch. destruct Hch as (_ & _ & _ & Hrest).
    destruct r0 as [data|why]; [|destruct w1; discriminate].
    destruct (last_kline data) as [last|]; [|destruct w1; discriminate].
    eapply IH, Hrest.
Qed.

(** Every exchange but the last brought at least one record. *)
Lemma chained_length (h : World) (c : Z) (w : World) :
  chain h c w -> (List.length w <= List.length (records w) + 1)%nat.
Proof.
  revert h c. induction w as [|[p r] w IH]; intros h c Hch; simpl; [lia|].
  simpl in Hch. destruct Hch as (_ & _ & _ & Hrest).
  destruct r as [data|why].
  - destruct (last_kline data) as [last|] eqn:Hl.
    + specialize (IH _ _ Hrest). unfold records, pages in *. simpl.
      rewrite length_app. destruct data; [discriminate|]. simpl. lia.
    + subst w. simpl. lia.
  - subst w. simpl. lia.
Qed.

Section Orderly.

Hypothesis Hstep : 0 < interval_ms.
Hypothesis Hord : orderly server.

(** With a positive step and an orderly provider, the cursor after a page
    is beyond every record of the page, and beyond the cursor before it. *)
Lemma orderly_page (h : World) (c : Z) (data : list Kline) (last : Kline) :
  Page data = server h (request_at symbol_ interval_ end_time c) ->
  last_kline data = Some last ->
  c < openTime last + interval_ms /\
  forall k, In k data -> openTime k < openTime last + interval_ms.
Proof.
  intros Hs Hl.
  destruct (Hord h (request_at symbol_ interval_ end_time c))
    as (data' & Hs' & Hinc & Hfirst).
  rewrite <- Hs in Hs'. injection Hs' as <-.
  assert (Hle : forall k, In k data -> openTime k <= openTime last).
  { intros k Hk. eapply increasing_last; eassumption. }
  split.
  - destruct data as [|a data']; [discriminate|].
    specialize (Hfirst a data' eq_refl). simpl in Hfirst.
    specialize (Hle a (or_introl eq_refl)). lia.
  - intros k Hk. specialize (Hle k Hk). lia.
Qed.

(** The requests of a chained trace start at or after its first cursor. *)
Lemma chained_cursor_le (h : World) (c : Z) (w : World) (p : Params)
  (r : Response) :
  chain h c w -> In (p, r) w -> c <= startTime p.
Proof.
  revert h c. induction w as [|[p0 r0] w IH]; intros h c Hch Hin;
    [destruct Hin|].
  simpl in Hch. destruct Hch as (-> & Hc & Hs & Hrest).
  destruct Hin as [E|Hin].
  - injection E as <- <-. simpl. lia.
  - destruct r0 as [data|why]; [|subst w; destruct Hin].
    destruct (last_kline data) as [last|] eqn:Hl; [|subst w; destruct Hin].
    destruct (orderly_page h c data last Hs Hl) as [Hlt _].
    specialize (IH _ _ Hrest Hin). lia.
Qed.

(** Every request starts after all the records received before it. *)
Lemma chained_no_refetch (h : World) (c : Z) (w1 w2 : World) (p : Params)
  (r : Response) (k : Kline) :
  chain h c (w1 ++ (p, r) :: w2) -> In k (records w1) ->
  openTime k < startTime p.
Proof.
  revert h c. induction w1 as [|[p0 r0] w1 IH]; intros h c Hch Hin;
    [destruct Hin|].
  simpl in Hch. destruct Hch as (-> & Hc & Hs & Hrest).
  destruct r0 as [data|why]; [|destruct w1; discriminate].
  destruct (last_kline data) as [last|] eqn:Hl; [|destruct w1; discriminate].
  destruct (orderly_page h c data last Hs Hl) as [_ Hlt].
  unfold records, pages in Hin. simpl in Hin.
  apply in_app_or in Hin as [Hin|Hin].
  - specialize (Hlt k Hin).
    assert (Hp : In (p, r) (w1 ++ (p, r) :: w2))
      by (apply in_or_app; right; now left).
    pose proof (chained_cursor_le _ _ _ p r Hrest Hp). lia.
  - eapply IH; eassumption.
Qed.

(** The number of requests is bounded by the window and the step. *)
Lemma chained_count (h : World) (c : Z) (w : World) :
  chain h c w -> w <> [] ->
  (Z.of_nat (List.length w) - 2) * interval_ms < end_time - c.
Proof.
  revert h c. induction w as [|[p0 r0] w IH]; intros h c Hch Hne;
    [congruence|].
  simpl in Hch. destruct Hch as (-> & Hc & Hs & Hrest).
  destruct w as [|x w].
  - simpl List.length. lia.
  - destruct r0 as [data|why]; [|discriminate].
    destruct (last_kline data) as [last|] eqn:Hl; [|discriminate].
    destruct (orderly_page h c data last Hs Hl) as [Hlt _].
    assert (Hne' : x :: w <> []) by discriminate.
    specialize (IH _ _ Hrest Hne').
    assert (Hstep' : c + interval_ms <= openTime last + interval_ms).
    { destruct (Hord h (request_at symbol_ interval_ end_time c))
        as (data' & Hs' & Hinc & Hfirst).
      rewrite <- Hs in Hs'. injection Hs' as <-.
      destruct data as [|a data']; [discriminate|].
      specialize (Hfirst a data' eq_refl). simpl in Hfirst.
      pose proof (increasing_last _ _ a Hinc Hl (or_introl eq_refl)). lia. }
    replace (Z.of_nat (List.length ((request_at symbol_ interval_ end_time c,
                                     Page data) :: x :: w)) - 2)
      with (Z.of_nat (List.length (x :: w)) - 2 + 1)
      by (simpl List.length; lia).
    rewrite Z.mul_add_distr_r. lia.
Qed.

End Orderly.

End Trace.

(** Every exchange of a chained trace before the last one is a page that
    holds records. *)
Lemma chained_init (server : Endpoint) (symbol_ interval_ : string)
  (interval_ms end_time : Z) (h : World) (c : Z) (w1 : World)
  (x : Params * Response) (p : Params) (r : Response) :
  chained server symbol_ interval_ interval_ms end_time h c (w1 ++ [x]) ->
  In (p, r) w1 -> exists data, r = Page data /\ data <> [].
Proof.
  revert h c. induction w1 as [|[p0 r0] w1 IH]; intros h c Hch Hin;
    [destruct Hin|].
  simpl in Hch. destruct Hch as (_ & _ & _ & Hrest).
  destruct r0 as [data|why]; [|destruct w1; discriminate].
  destruct (last_kline data) as [last|] eqn:Hl; [|destruct w1; discriminate].
  destruct Hin as [E|Hin].
  - injection E as <- <-. exists data. split; [reflexivity|].
    intros ->. discriminate.
  - eapply IH; eassumption.
Qed.

(** What a call that ended did, in terms of the loop. *)
Lemma get_binance_klines_trace (fuel : nat) (fromtimestamp : Clock)
  (server : Endpoint) (w : World) (symbol interval : string)
  (start_time end_time : Z) (w' : World) (r : result (list Kline)) :
  get_binance_klines fuel fromtimestamp server w symbol interval start_time
    end_time
  = Some (w', r) ->
  (exists e, parse_interval_to_ms interval = Raise e /\ w' = w /\ r = Raise e) \/
  (exists step w_new,
      parse_interval_to_ms interval = Ok step /\
      w' = w ++ w_new /\
      chained server symbol interval step end_time w start_time w_new /\
      ends_with fromtimestamp step w_new r /\
      (forall ks, r = Ok ks -> ks = records w_new)).
Proof.
  unfold get_binance_klines.
  destruct (parse_interval_to_ms interval) as [step|e]; intros H.
  - right. apply fetch_loop_trace in H as (w_new & Hw & Hch & Hend & Hks).
    exists step, w_new. repeat split; auto.
  - left. injection H as <- <-. exists e. auto.
Qed.

(** X1. Whatever the provider answers, every request that
    [get_binance_klines] makes carries the symbol, the interval token and
    the end time of the call and the limit 1000, and starts before the end
    time; the first one starts at the start time of the call; and what is
    recorded for a request is the provider's answer to it. *)
Theorem get_binance_klines_requests (fuel : nat)
  (fromtimestamp : Clock) (server : Endpoint)
  (w : World) (symbol_ interval_ : string) (start_time end_time : Z)
  (w' : World) (r : result (list Kline)) :
  get_binance_klines fuel fromtimestamp server w symbol_ interval_ start_time
    end_time
  = Some (w', r) ->
  exists w_new,
    w' = w ++ w_new /\
    (forall p resp, In (p, resp) w_new ->
       symbol p = symbol_ /\ interval p = interval_ /\
       endTime p = end_time /\ limit p = 1000 /\ startTime p < end_time) /\
    (forall p resp rest, w_new = (p, resp) :: rest ->
       startTime p = start_time) /\
    (forall w1 p resp w2, w_new = w1 ++ (p, resp) :: w2 ->
       resp = server (w ++ w1) p).
Proof.
  intros H. apply get_binance_klines_trace in H
    as [(e & _ & -> & _)|(step & w_new & _ & -> & Hch & _ & _)].
  - exists []. rewrite app_nil_r. split; [reflexivity|].
    split; [intros p resp []|]. split; [discriminate|].
    intros [|x w1] p resp w2 E; discriminate.
  - exists w_new. split; [reflexivity|]. split; [|split].
    + intros p resp Hin. eapply chained_requests; eassumption.
    + intros p resp rest ->. simpl in Hch. destruct Hch as (-> & _).
      reflexivity.
    + intros w1 p resp w2 ->. eapply chained_answers, Hch.
Qed.

(** The download of the hourly data, two records per page. *)
Lemma get_binance_klines_requests_witness :
  exists w' r,
    get_binance_klines 5 utc_fromtimestamp (dataset_server 2 hourly_data) []
      "BTCUSDT" "1h" 0 10800000 = Some (w', r) /\
    exists w_new,
      w' = [] ++ w_new /\
      (forall p resp, In (p, resp) w_new ->
         symbol p = "BTCUSDT"%string /\ interval p = "1h"%string /\
         endTime p = 10800000 /\ limit p = 1000 /\ startTime p < 10800000) /\
      (forall p resp rest, w_new = (p, resp) :: rest -> startTime p = 0) /\
      (forall w1 p resp w2, w_new = w1 ++ (p, resp) :: w2 ->
         resp = dataset_server 2 hourly_data ([] ++ w1) p).
Proof.
  destruct (get_binance_klines 5 utc_fromtimestamp
              (dataset_server 2 hourly_data) [] "BTCUSDT" "1h" 0 10800000)
    as [[w' r]|] eqn:E;
    [|vm_compute in E; discriminate].
  exists w', r. split; [reflexivity|].
  exact (get_binance_klines_requests _ _ _ _ _ _ _ _ _ _ E).
Defined.

(** X2. Between two requests in a row the cursor is advanced from the page
    received: the first of the two was answered with a page that holds
    records, and the second starts at the open time of the last record of
    that page plus the step of the interval. *)
Theorem get_binance_klines_cursor_chain (fuel : nat)
  (fromtimestamp : Clock) (server : Endpoint)
  (w : World) (symbol_ interval_ : string) (start_time end_time step : Z)
  (w1 w2 : World) (p1 p2 : Params) (r1 r2 : Response)
  (r : result (list Kline)) :
  parse_interval_to_ms interval_ = Ok step ->
  get_binance_klines fuel fromtimestamp server w symbol_ interval_ start_time
    end_time
  = Some (w ++ w1 ++ (p1, r1) :: (p2, r2) :: w2, r) ->
  exists data last,
    r1 = Page data /\ last_kline data = Some last /\
    startTime p2 = openTime last + step.
Proof.
  intros Hparse H. apply get_binance_klines_trace in H
    as [(e & Hp & _)|(step' & w_new & Hp & Hw & Hch & _ & _)];
    [congruence|].
  rewrite Hparse in Hp. injection Hp as <-.
  apply app_inv_head in Hw. subst w_new.
  eapply chained_next, Hch.
Qed.

Lemma get_binance_klines_cursor_chain_witness :
  exists data last,
    Page [kline 0 10 1; kline 3600000 11 2] = Page data /\
    last_kline data = Some last /\
    7200000 = openTime last + 3600000.
Proof.
  apply (get_binance_klines_cursor_chain 5 utc_fromtimestamp
           (dataset_server 2 hourly_data) []
           "BTCUSDT" "1h" 0 10800000 3600000 [] []
           (request_at "BTCUSDT" "1h" 10800000 0)
           (request_at "BTCUSDT" "1h" 10800000 7200000)
           (Page [kline 0 10 1; kline 3600000 11 2])
           (Page [kline 7200000 12 1])
           (Ok hourly_data)).
  - reflexivity.
  - vm_compute. reflexivity.
Defined.

(** X3. Whatever the provider answers, a call that returns normally returns
    every record of every page it received, in the order received: nothing
    is dropped, trimmed to the window, reordered or deduplicated; no request
    of the call failed; and the call made at most one request more than it
    returns records. *)
Theorem get_binance_klines_returns_everything (fuel : nat)
  (fromtimestamp : Clock) (server : Endpoint) (w : World)
  (symbol_ interval_ : string)
  (start_time end_time : Z) (w' : World) (klines : list Kline) :
  get_binance_klines fuel fromtimestamp server w symbol_ interval_ start_time
    end_time
  = Some (w', Ok klines) ->
  exists w_new,
    w' = w ++ w_new /\
    klines = List.concat (pages w_new) /\
    (forall p why, ~ In (p, Failed why) w_new) /\
    (List.length w_new <= List.length klines + 1)%nat.
Proof.
  intros H. apply get_binance_klines_trace in H
    as [(e & _ & _ & ?)|(step & w_new & _ & -> & Hch & Hend & Hks)];
    [discriminate|].
  exists w_new. split; [reflexivity|].
  rewrite (Hks klines eq_refl). split; [reflexivity|].
  split; [exact Hend|]. eapply chained_length, Hch.
Qed.

(** A provider that answers out of the window: the record is kept. *)
Lemma get_binance_klines_returns_everything_witness :
  exists w_new,
    [(request_at "BTCUSDT" "1m" 200000 100000, Page [kline 0 1 1]);
     (request_at "BTCUSDT" "1m" 200000 60000, Page [])] = [] ++ w_new /\
    [kline 0 1 1] = List.concat (pages w_new) /\
    (forall p why, ~ In (p, Failed why) w_new) /\
    (List.length w_new <= List.length [kline 0 1 1] + 1)%nat.
Proof.
  apply (get_binance_klines_returns_everything 2 utc_fromtimestamp
           regressing_server []
           "BTCUSDT" "1m" 100000 200000).
  vm_compute. reflexivity.
Defined.

(** X4. A call raises a [RequestException] only as the answer of the
    provider to the last request of the call; every request before it was
    answered with a page that holds records, and those records are not
    returned. *)
Theorem get_binance_klines_failure (fuel : nat)
  (fromtimestamp : Clock) (server : Endpoint)
  (w : World) (symbol_ interval_ : string) (start_time end_time : Z)
  (w' : World) (why : RequestFailure) :
  get_binance_klines fuel fromtimestamp server w symbol_ interval_ start_time
    end_time
  = Some (w', Raise (RequestException why)) ->
  exists w1 p,
    w' = w ++ w1 ++ [(p, Failed why)] /\
    server (w ++ w1) p = Failed why /\
    (forall p' r', In (p', r') w1 -> exists data, r' = Page data /\ data <> []).
Proof.
  intros H. apply get_binance_klines_trace in H
    as [(e & Hp & _ & He)|(step & w_new & _ & -> & Hch & Hend & _)].
  - exfalso. injection He as <-.
    destruct (PyStr.last_char interval_) as [u|e] eqn:Hu.
    + rewrite (last_char_split _ _ Hu), parse_interval_to_ms_app in Hp.
      destruct (PyStr.int (PyStr.but_last interval_)); [|discriminate].
      destruct (Ascii.eqb u "m"); [discriminate|].
      destruct (Ascii.eqb u "h"); [discriminate|].
      destruct (Ascii.eqb u "d"); discriminate.
    + unfold parse_interval_to_ms in Hp. rewrite Hu in Hp. simpl in Hp.
      destruct interval_ as [|c0 s0]; simpl in Hu.
      * injection Hu as <-. discriminate.
      * clear Hp. revert c0 Hu. induction s0 as [|c1 s1 IH]; intros c0 Hu;
          [discriminate|]. eapply IH, Hu.
  - destruct Hend as [(w1 & p & why' & -> & E)
                     |(w1 & p & d & l & te & _ & _ & _ & E)];
      [|destruct te; discriminate].
    injection E as <-.
    exists w1, p. split; [reflexivity|]. split.
    + symmetry. eapply chained_answers, Hch.
    + intros p' r' Hin. eapply chained_init; eassumption.
Qed.

Lemma get_binance_klines_failure_witness :
  exists w1 p,
    [(request_at "BTCUSDT" "1h" 10800000 0, Page [kline 0 10 1]);
     (request_at "BTCUSDT" "1h" 10800000 3600000, Failed (HTTPError 429))]
    = [] ++ w1 ++ [(p, Failed (HTTPError 429))] /\
    failing_server ([] ++ w1) p = Failed (HTTPError 429) /\
    (forall p' r', In (p', r') w1 -> exists data, r' = Page data /\ data <> []).
Proof.
  apply (get_binance_klines_failure 5 utc_fromtimestamp
           failing_server [] "BTCUSDT" "1h"
           0 10800000).
  vm_compute. reflexivity.
Defined.

(** X5. For an interval of positive step and an orderly provider, every
    request starts strictly after the open time of every record received
    before it: no bucket already seen is requested again. *)
Theorem get_binance_klines_no_refetch (fuel : nat)
  (fromtimestamp : Clock) (server : Endpoint)
  (w : World) (symbol_ interval_ : string) (start_time end_time step : Z)
  (w1 w2 : World) (p : Params) (resp : Response) (r : result (list Kline))
  (k : Kline) :
  parse_interval_to_ms interval_ = Ok step ->
  0 < step ->
  orderly server ->
  get_binance_klines fuel fromtimestamp server w symbol_ interval_ start_time
    end_time
  = Some (w ++ w1 ++ (p, resp) :: w2, r) ->
  In k (List.concat (pages w1)) ->
  openTime k < startTime p.
Proof.
  intros Hparse Hstep Hord H Hin. apply get_binance_klines_trace in H
    as [(e & Hp & _)|(step' & w_new & Hp & Hw & Hch & _ & _)];
    [congruence|].
  rewrite Hparse in Hp. injection Hp as <-.
  apply app_inv_head in Hw. subst w_new.
  eapply chained_no_refetch; eassumption.
Qed.

Lemma get_binance_klines_no_refetch_witness :
  openTime (kline 3600000 11 2)
  < startTime (request_at "BTCUSDT" "1h" 10800000 7200000).
Proof.
  apply (get_binance_klines_no_refetch 5 utc_fromtimestamp
           (dataset_server 2 hourly_data) []
           "BTCUSDT" "1h" 0 10800000 3600000
           [(request_at "BTCUSDT" "1h" 10800000 0,
             Page [kline 0 10 1; kline 3600000 11 2])]
           [] _ (Page [kline 7200000 12 1]) (Ok hourly_data)).
  - reflexivity.
  - lia.
  - apply dataset_server_orderly. repeat constructor.
  - vm_compute. reflexivity.
  - simpl. right. left. reflexivity.
Defined.

(** X6. For an interval of positive step and an orderly provider, a call
    that makes [n >= 1] requests satisfies
    [(n - 2) * step < end_time - start_time]: the number of requests is at
    most the length of the window divided by the step, plus two. *)
Theorem get_binance_klines_request_bound (fuel : nat)
  (fromtimestamp : Clock) (server : Endpoint)
  (w : World) (symbol_ interval_ : string) (start_time end_time step : Z)
  (w_new : World) (r : result (list Kline)) :
  parse_interval_to_ms interval_ = Ok step ->
  0 < step ->
  orderly server ->
  get_binance_klines fuel fromtimestamp server w symbol_ interval_ start_time
    end_time
  = Some (w ++ w_new, r) ->
  w_new <> [] ->
  (Z.of_nat (List.length w_new) - 2) * step < end_time - start_time.
Proof.
  intros Hparse Hstep Hord H Hne. apply get_binance_klines_trace in H
    as [(e & Hp & _)|(step' & w_new' & Hp & Hw & Hch & _ & _)];
    [congruence|].
  rewrite Hparse in Hp. injection Hp as <-.
  apply app_inv_head in Hw. subst w_new'.
  eapply chained_count; eassumption.
Qed.

Lemma get_binance_klines_request_bound_witness :
  (Z.of_nat 2 - 2) * 3600000 < 10800000 - 0.
Proof.
  apply (get_binance_klines_request_bound 5 utc_fromtimestamp
           (dataset_server 2 hourly_data) []
           "BTCUSDT" "1h" 0 10800000 3600000
           [(request_at "BTCUSDT" "1h" 10800000 0,
             Page [kline 0 10 1; kline 3600000 11 2]);
            (request_at "BTCUSDT" "1h" 10800000 7200000,
             Page [kline 7200000 12 1])]
           (Ok hourly_data)).
  - reflexivity.
  - lia.
  - apply dataset_server_orderly. repeat constructor.
  - vm_compute. reflexivity.
  - discriminate.
Defined.

(** ** More on the histogram and the Point of Control *)

Section PocFacts.

Import Np NpFacts.
Local Open Scope Q_scope.

Lemma Qsum_add_at (i : nat) (w : Q) (n : list Q) :
  (i < List.length n)%nat -> Spec.Qsum (add_at i w n) == Spec.Qsum n + w.
Proof.
  revert i. induction n as [|x n IH]; intros i Hi; simpl in Hi; [lia|].
  destruct i as [|i]; simpl.
  - lra.
  - rewrite IH by lia. lra.
Qed.

Lemma Qsum_repeat_0 (m : nat) : Spec.Qsum (repeat 0 m) == 0.
Proof. induction m as [|m IH]; simpl; [reflexivity|]. rewrite IH. lra. Qed.

(** Adding weights at positions within the array adds them to its sum. *)
Lemma Qsum_fold_add_at (pairs : list (Z * Q)) (n : list Q) :
  (forall iw, In iw pairs -> (Z.to_nat (fst iw) < List.length n)%nat) ->
  Spec.Qsum (fold_left (fun n iw => add_at (Z.to_nat (fst iw)) (snd iw) n)
               pairs n)
  == Spec.Qsum n + Spec.Qsum (map snd pairs).
Proof.
  revert n. induction pairs as [|[i w] pairs IH]; intros n Hin; simpl.
  - lra.
  - rewrite IH.
    + rewrite Qsum_add_at by (apply (Hin (i, w)); now left). simpl. lra.
    + intros iw Hiw. rewrite length_add_at. apply Hin. now right.
Qed.

(** The histogram of a non-empty series, as the accumulation of the volumes
    at the bin indices of the prices over the edges of the range. *)
Lemma histogram_shape (klines : list Kline) (bins : Z) :
  klines <> [] -> (1 <= bins)%Z ->
  let lo := fst (Spec.price_range klines) in
  let hi := snd (Spec.price_range klines) in
  let edges := linspace lo hi (bins + 1) in
  histogram (map closePrice klines) bins (map volume klines)
  = Ok (fold_left (fun n iw => add_at (Z.to_nat (fst iw)) (snd iw) n)
          (Spec.indexed lo hi bins edges klines) (repeat 0 (Z.to_nat bins)),
        edges).
Proof.
  intros Hne Hbins lo hi edges.
  destruct (price_range_spec klines Hne) as [Hlt Hb].
  fold lo hi in Hlt, Hb.
  unfold histogram.
  destruct (Z.ltb_spec bins 1) as [?|_]; [lia|].
  assert (Houter :
    (let outer := match map closePrice klines with
                  | [] => (0, 1)
                  | x :: xs => (amin x xs, amax x xs)
                  end in
     if Qeq_bool (fst outer) (snd outer)
     then (fst outer - (1 # 2), snd outer + (1 # 2)) else outer)
    = (lo, hi)).
  { unfold lo, hi, Spec.price_range.
    destruct (map closePrice klines) as [|x xs]; simpl.
    - reflexivity.
    - destruct (Qeq_bool (amin x xs) (amax x xs)); reflexivity. }
  cbv zeta in Houter. cbv zeta. rewrite Houter.
  cbn [fst snd].
  rewrite combine_prices_volumes.
  rewrite filter_all.
  2:{ intros xw Hxw. apply in_map_iff in Hxw as (k & <- & Hk).
      destruct (Hb k Hk) as [H1 H2]. simpl.
      apply andb_true_iff. split; apply Qle_bool_iff; assumption. }
  rewrite !map_map. cbn [fst snd].
  unfold bincount. rewrite combine_indexed. reflexivity.
Qed.

(** The records whose price is the least and the greatest of the series. *)
Lemma price_range_min_max (klines : list Kline) :
  klines <> [] ->
  exists kmin kmax,
    In kmin klines /\ In kmax klines /\
    (forall k, In k klines ->
       closePrice kmin <= closePrice k /\ closePrice k <= closePrice kmax) /\
    ((closePrice kmin < closePrice kmax /\
      Spec.price_range klines = (closePrice kmin, closePrice kmax)) \/
     (closePrice kmin == closePrice kmax /\
      Spec.price_range klines
      = (closePrice kmin - (1 # 2), closePrice kmax + (1 # 2)))).
Proof.
  intros Hne. unfold Spec.price_range.
  destruct klines as [|k0 klines]; [congruence|].
  change (map closePrice (k0 :: klines))
    with (closePrice k0 :: map closePrice klines).
  cbv iota beta.
  destruct (amin_spec (map closePrice klines) (closePrice k0))
    as [Hmin_in Hmin].
  destruct (amax_spec (map closePrice klines) (closePrice k0))
    as [Hmax_in Hmax].
  change (closePrice k0 :: map closePrice klines)
    with (map closePrice (k0 :: klines)) in Hmin_in, Hmax_in, Hmin, Hmax.
  apply in_map_iff in Hmin_in as (kmin & Emin & Hkmin).
  apply in_map_iff in Hmax_in as (kmax & Emax & Hkmax).
  rewrite <- Emin, <- Emax in *.
  exists kmin, kmax. split; [exact Hkmin|]. split; [exact Hkmax|].
  assert (Hbounds : forall k, In k (k0 :: klines) ->
             closePrice kmin <= closePrice k /\
             closePrice k <= closePrice kmax).
  { intros k Hk. split; [apply Hmin|apply Hmax]; apply in_map, Hk. }
  split; [exact Hbounds|].
  destruct (Qeq_bool (closePrice kmin) (closePrice kmax)) eqn:E; simpl.
  - right. apply Qeq_bool_iff in E. auto.
  - left. apply Qeq_bool_neq in E. split; [|reflexivity].
    destruct (Qlt_le_dec (closePrice kmin) (closePrice kmax)) as [H|H];
      [exact H|].
    exfalso. apply E. apply Qle_antisym; [|exact H].
    destruct (Hbounds k0 (or_introl eq_refl)) as [H1 H2].
    eapply Qle_trans; eassumption.
Qed.

(** The midpoint of a bin lies strictly inside the range. *)
Lemma midpoint_inside (lo hi : Q) (bins i : Z) :
  (1 <= bins)%Z -> lo < hi -> (0 <= i < bins)%Z ->
  lo < Spec.midpoint lo hi bins i /\ Spec.midpoint lo hi bins i < hi.
Proof.
  intros Hbins Hlt Hi.
  pose proof (edge_mono lo hi bins Hbins Hlt 0 i ltac:(lia)) as H0.
  pose proof (edge_mono lo hi bins Hbins Hlt (i + 1) bins ltac:(lia)) as H1.
  rewrite (edge_first lo hi bins Hbins) in H0.
  rewrite (edge_last lo hi bins Hbins) in H1.
  assert (H2 : Spec.edge lo hi bins i < Spec.edge lo hi bins (i + 1)).
  { apply Qnot_le_lt. intros H.
    apply (edge_le_iff lo hi bins Hbins Hlt) in H.
    pose proof (proj1 (edge_ge_iff lo hi bins Hbins Hlt
                         (Spec.edge lo hi bins i) i) (Qle_refl _)).
    assert (H4 : inject_Z (i + 1) <= inject_Z i)
      by (eapply Qle_trans; eassumption).
    rewrite <- Zle_Qle in H4. lia. }
  unfold Spec.midpoint.
  set (a := Spec.edge lo hi bins i) in *.
  set (b := Spec.edge lo hi bins (i + 1)) in *.
  clearbody a b. split.
  - apply Qlt_shift_div_l; lra.
  - apply Qlt_shift_div_r; lra.
Qed.

End PocFacts.

(** X7. For a non-empty series and at least one bin, the Point of Control
    lies strictly between the least and the greatest close price of the
    series when these differ, and strictly within one half of the common
    close price when all close prices are equal. *)
Theorem calculate_poc_within_range (klines : list Kline) (bins : Z) :
  klines <> [] -> 1 <= bins ->
  exists r kmin kmax,
    calculate_poc klines bins = Ok r /\
    In kmin klines /\ In kmax klines /\
    (forall k, In k klines ->
       (closePrice kmin <= closePrice k <= closePrice kmax)%Q) /\
    ((closePrice kmin < closePrice kmax)%Q ->
     (closePrice kmin < r < closePrice kmax)%Q) /\
    ((closePrice kmin == closePrice kmax)%Q ->
     (closePrice kmin - (1 # 2) < r < closePrice kmin + (1 # 2))%Q).
Proof.
  intros Hne Hbins.
  destruct (price_range_min_max klines Hne)
    as (kmin & kmax & Hkmin & Hkmax & Hbounds & Hcases).
  destruct (calculate_poc_selects klines bins Hne Hbins)
    as (r & i & Hr & Hi & Hmid & _).
  destruct (NpFacts.price_range_spec klines Hne) as [Hlt _].
  destruct (midpoint_inside _ _ bins i Hbins Hlt Hi) as [H1 H2].
  rewrite <- Hmid in H1, H2.
  exists r, kmin, kmax. repeat (split; [assumption|]).
  destruct Hcases as [[Hlt' E]|[Heq E]]; rewrite E in H1, H2;
    cbn [fst snd] in H1, H2; split; intros H; split; lra.
Qed.

Lemma calculate_poc_within_range_witness :
  exists r kmin kmax,
    calculate_poc hourly_data default_bins = Ok r /\
    In kmin hourly_data /\ In kmax hourly_data /\
    (forall k, In k hourly_data ->
       (closePrice kmin <= closePrice k <= closePrice kmax)%Q) /\
    ((closePrice kmin < closePrice kmax)%Q ->
     (closePrice kmin < r < closePrice kmax)%Q) /\
    ((closePrice kmin == closePrice kmax)%Q ->
     (closePrice kmin - (1 # 2) < r < closePrice kmin + (1 # 2))%Q).
Proof.
  apply (calculate_poc_within_range hourly_data default_bins).
  - discriminate.
  - unfold default_bins. lia.
Defined.

(** X8. For a non-empty series and at least one bin, the histogram that
    [calculate_poc] builds has one entry per bin and sums to the total
    volume of the series: the volume of every record is counted, once. *)
Theorem histogram_conserves_volume (klines : list Kline) (bins : Z) :
  klines <> [] -> 1 <= bins ->
  exists hist edges,
    Np.histogram (map closePrice klines) bins (map volume klines)
    = Ok (hist, edges) /\
    List.length hist = Z.to_nat bins /\
    List.length edges = S (Z.to_nat bins) /\
    (Spec.Qsum hist == Spec.Qsum (map volume klines))%Q.
Proof.
  intros Hne Hbins.
  pose proof (histogram_shape klines bins Hne Hbins) as Hshape.
  cbv zeta in Hshape.
  destruct (NpFacts.price_range_spec klines Hne) as [Hlt Hb].
  set (lo := fst (Spec.price_range klines)) in *.
  set (hi := snd (Spec.price_range klines)) in *.
  destruct (NpFacts.linspace_edges lo hi bins Hbins) as [Hlen Hedges].
  assert (Hrange : forall iw,
             In iw (Spec.indexed lo hi bins (Np.linspace lo hi (bins + 1))
                      klines) ->
             (Z.to_nat (fst iw)
              < List.length (repeat 0%Q (Z.to_nat bins)))%nat).
  { intros iw Hiw. unfold Spec.indexed in Hiw. apply in_map_iff in Hiw.
    destruct Hiw as (k & <- & Hk). destruct (Hb k Hk) as [H1 H2].
    destruct (NpFacts.bin_index_in_bin lo hi bins _ Hbins Hlt Hedges
                (closePrice k) H1 H2) as [Hr _].
    rewrite repeat_length. simpl. lia. }
  eexists _, _. split; [exact Hshape|]. split; [|split].
  - destruct (NpFacts.fold_add_at _ _ O Hrange) as [Hl _].
    rewrite Hl. apply repeat_length.
  - exact Hlen.
  - rewrite (Qsum_fold_add_at _ _ Hrange), Qsum_repeat_0.
    unfold Spec.indexed. rewrite map_map. simpl. apply Qplus_0_l.
Qed.

Lemma histogram_conserves_volume_witness :
  exists hist edges,
    Np.histogram (map closePrice hourly_data) 4 (map volume hourly_data)
    = Ok (hist, edges) /\
    List.length hist = Z.to_nat 4 /\
    List.length edges = S (Z.to_nat 4) /\
    (Spec.Qsum hist == Spec.Qsum (map volume hourly_data))%Q.
Proof.
  apply (histogram_conserves_volume hourly_data 4).
  - discriminate.
  - lia.
Defined.

Lemma Qsum_nonneg (l : list Q) :
  (forall x, In x l -> (0 <= x)%Q) -> (0 <= Spec.Qsum l)%Q.
Proof.
  induction l as [|a l IH]; simpl; intros H; [apply Qle_refl|].
  pose proof (H a (or_introl eq_refl)).
  pose proof (IH (fun x Hx => H x (or_intror Hx))). lra.
Qed.

Lemma Qsum_ge_member (l : list Q) (x : Q) :
  (forall y, In y l -> (0 <= y)%Q) -> In x l -> (x <= Spec.Qsum l)%Q.
Proof.
  induction l as [|a l IH]; simpl; intros H Hin; [destruct Hin|].
  pose proof (H a (or_introl eq_refl)) as Ha.
  pose proof (Qsum_nonneg l (fun y Hy => H y (or_intror Hy))) as Hl.
  destruct Hin as [<-|Hin]; [lra|].
  pose proof (IH (fun y Hy => H y (or_intror Hy)) Hin). lra.
Qed.

(** X9. For a non-empty series of non-negative volumes, not all zero, and
    at least one bin, the bin that [calculate_poc] selects holds a record:
    the Point of Control is within half a bin width of the close price of
    some record of the series. *)
Theorem calculate_poc_near_record (klines : list Kline) (bins : Z) :
  klines <> [] -> 1 <= bins ->
  (forall k, In k klines -> (0 <= volume k)%Q) ->
  (exists k, In k klines /\ (0 < volume k)%Q) ->
  let lo := fst (Spec.price_range klines) in
  let hi := snd (Spec.price_range klines) in
  exists r k,
    calculate_poc klines bins = Ok r /\
    In k klines /\
    (Qabs (r - closePrice k) <= (hi - lo) / inject_Z (2 * bins))%Q.
Proof.
  intros Hne Hbins Hnn (k0 & Hk0 & Hpos) lo hi.
  destruct (calculate_poc_selects klines bins Hne Hbins)
    as (r & i & Hr & Hi & Hmid & Hmax & _).
  fold lo hi in Hmid, Hmax.
  destruct (NpFacts.price_range_spec klines Hne) as [Hlt Hb].
  fold lo hi in Hlt, Hb.
  destruct (NpFacts.linspace_edges lo hi bins Hbins) as [_ Hedges].
  (* the bin of the record of positive volume holds a positive volume *)
  destruct (Hb k0 Hk0) as [H1 H2].
  destruct (NpFacts.bin_index_in_bin lo hi bins _ Hbins Hlt Hedges
              (closePrice k0) H1 H2) as [Hr0 Hin0].
  set (j := Np.bin_index (Np.linspace lo hi (bins + 1)) lo hi bins
              (closePrice k0)) in *.
  assert (Hvj : (volume k0
                 <= Spec.bin_volume (Spec.in_bin lo hi bins) klines j)%Q).
  { unfold Spec.bin_volume. apply Qsum_ge_member.
    - intros y Hy. apply in_map_iff in Hy as (k & <- & Hk).
      apply filter_In in Hk as [Hk _]. apply Hnn, Hk.
    - apply in_map, filter_In. auto. }
  specialize (Hmax j Hr0).
  (* so the selected bin is not empty *)
  assert (Hex : exists k, In k klines /\
                          Spec.in_bin lo hi bins i (closePrice k) = true).
  { unfold Spec.bin_volume in Hmax at 2.
    destruct (filter (fun k => Spec.in_bin lo hi bins i (closePrice k))
                klines) as [|k l] eqn:E.
    - simpl in Hmax. lra.
    - assert (Hk : In k (k :: l)) by now left.
      rewrite <- E in Hk. apply filter_In in Hk. exists k. exact Hk. }
  destruct Hex as (k & Hk & Hin).
  exists r, k. split; [exact Hr|]. split; [exact Hk|].
  unfold Spec.in_bin in Hin. apply andb_true_iff in Hin as [Hl Hu].
  apply Qle_bool_iff in Hl.
  assert (Hu' : (closePrice k <= Spec.edge lo hi bins (i + 1))%Q).
  { apply orb_true_iff in Hu as [Hu|Hu].
    - apply NpFacts.Qlt_bool_iff in Hu. lra.
    - apply andb_true_iff in Hu as [Ei Hu]. apply Z.eqb_eq in Ei.
      apply Qle_bool_iff in Hu. subst i.
      replace (bins - 1 + 1) with bins by lia.
      rewrite (NpFacts.edge_last lo hi bins Hbins). exact Hu. }
  assert (Hn : ~ (inject_Z bins == 0)%Q)
    by (apply (NpFacts.bins_nonzero bins Hbins)).
  assert (Hw : (Spec.edge lo hi bins (i + 1)
                == Spec.edge lo hi bins i + (hi - lo) / inject_Z bins)%Q).
  { unfold Spec.edge. rewrite inject_Z_plus. change (inject_Z 1) with 1%Q.
    field. exact Hn. }
  assert (Hhalf : ((hi - lo) / inject_Z (2 * bins)
                   == (hi - lo) / inject_Z bins / 2)%Q).
  { rewrite inject_Z_mult. change (inject_Z 2) with 2%Q. field. exact Hn. }
  rewrite Hhalf, Hmid. unfold Spec.midpoint. rewrite Hw in Hu' |- *.
  set (a := Spec.edge lo hi bins i) in *.
  set (wd := ((hi - lo) / inject_Z bins)%Q) in *.
  set (p := closePrice k) in *. clearbody a wd p.
  apply Qabs_case; intros _.
  - apply Qle_shift_div_l; [lra|].
    setoid_replace (((a + (a + wd)) / 2 - p) * 2)%Q
      with (2 * a + wd - 2 * p)%Q by field. lra.
  - apply Qle_shift_div_l; [lra|].
    setoid_replace ((- ((a + (a + wd)) / 2 - p)) * 2)%Q
      with (2 * p - 2 * a - wd)%Q by field. lra.
Qed.

Lemma calculate_poc_near_record_witness :
  exists r k,
    calculate_poc hourly_data 4 = Ok r /\
    In k hourly_data /\
    (Qabs (r - closePrice k)
     <= (snd (Spec.price_range hourly_data)
         - fst (Spec.price_range hourly_data)) / inject_Z (2 * 4))%Q.
Proof.
  apply (calculate_poc_near_record hourly_data 4).
  - discriminate.
  - lia.
  - intros k [<-|[<-|[<-|[]]]]; discriminate.
  - exists (kline 0 10 1). split; [now left|reflexivity].
Defined.

Lemma bin_volume_zero (member : Z -> Q -> bool) (klines : list Kline)
  (j : Z) :
  (forall k, In k klines -> (volume k == 0)%Q) ->
  (Spec.bin_volume member klines j == 0)%Q.
Proof.
  unfold Spec.bin_volume. induction klines as [|k klines IH]; simpl;
    intros Hzero; [reflexivity|].
  pose proof (IH (fun k' Hk' => Hzero k' (or_intror Hk'))) as IH'.
  destruct (member j (closePrice k)); simpl; [|exact IH'].
  rewrite (Hzero k (or_introl eq_refl)), IH'. reflexivity.
Qed.

(** X10. For a non-empty series whose volumes are all zero and at least
    one bin, every bin ties at zero and [calculate_poc] returns the midpoint
    of the lowest bin: the low end of the price range plus half a bin
    width. *)
Theorem calculate_poc_no_volume (klines : list Kline) (bins : Z) :
  klines <> [] -> 1 <= bins ->
  (forall k, In k klines -> (volume k == 0)%Q) ->
  let lo := fst (Spec.price_range klines) in
  let hi := snd (Spec.price_range klines) in
  exists r,
    calculate_poc klines bins = Ok r /\
    (r == lo + (hi - lo) / inject_Z (2 * bins))%Q.
Proof.
  intros Hne Hbins Hzero lo hi.
  destruct (calculate_poc_selects klines bins Hne Hbins)
    as (r & i & Hr & Hi & Hmid & _ & Hbefore).
  fold lo hi in Hmid, Hbefore.
  assert (Hi0 : i = 0).
  { destruct (Z.eq_dec i 0) as [E|E]; [exact E|]. exfalso.
    specialize (Hbefore 0 ltac:(lia)).
    rewrite !bin_volume_zero in Hbefore by exact Hzero.
    apply (Qlt_irrefl 0), Hbefore. }
  subst i. exists r. split; [exact Hr|].
  assert (Hn : ~ (inject_Z bins == 0)%Q)
    by (apply (NpFacts.bins_nonzero bins Hbins)).
  rewrite Hmid. unfold Spec.midpoint, Spec.edge.
  rewrite inject_Z_mult. simpl (0 + 1). change (inject_Z 2) with 2%Q.
  change (inject_Z 0) with 0%Q. change (inject_Z 1) with 1%Q.
  field. exact Hn.
Qed.

Lemma calculate_poc_no_volume_witness :
  exists r,
    calculate_poc [kline 0 10 0; kline 1 20 0] 5 = Ok r /\
    (r == fst (Spec.price_range [kline 0 10 0; kline 1 20 0])
          + (snd (Spec.price_range [kline 0 10 0; kline 1 20 0])
             - fst (Spec.price_range [kline 0 10 0; kline 1 20 0]))
            / inject_Z (2 * 5))%Q.
Proof.
  apply (calculate_poc_no_volume [kline 0 10 0; kline 1 20 0] 5).
  - discriminate.
  - lia.
  - intros k [<-|[<-|[]]]; reflexivity.
Defined.

(** ** More on the interval codec *)

Lemma digit_cases (d : Z) :
  is_digit d ->
  d = 0 \/ d = 1 \/ d = 2 \/ d = 3 \/ d = 4 \/
  d = 5 \/ d = 6 \/ d = 7 \/ d = 8 \/ d = 9.
Proof. unfold is_digit. lia. Qed.

Ltac each_digit d H :=
  destruct (digit_cases d H) as [->|[->|[->|[->|[->|[->|[->|[->|[->| ->]]]]]]]]].

Lemma digit_value_char (d : Z) :
  is_digit d -> PyStr.digit_value (digit_char d) = Some d.
Proof. intros H. each_digit d H; reflexivity. Qed.

Lemma is_ascii_numeral (ds : list Z) :
  Forall is_digit ds -> PyStr.is_ascii (numeral ds) = true.
Proof.
  induction 1 as [|d ds Hd _ IH]; simpl; [reflexivity|].
  rewrite IH, andb_true_r. each_digit d Hd; reflexivity.
Qed.

Lemma scan_digits_numeral (ds : list Z) (acc digits : Z) :
  Forall is_digit ds ->
  PyStr.scan_digits false acc digits (numeral ds)
  = Some (fold_left (fun a d => 10 * a + d) ds acc,
          digits + Z.of_nat (List.length ds), EmptyString).
Proof.
  intros H. revert acc digits.
  induction H as [|d ds Hd _ IH]; intros acc digits; simpl numeral.
  - simpl. rewrite Z.add_0_r. reflexivity.
  - simpl PyStr.scan_digits. rewrite (digit_value_char d Hd), IH.
    replace (digits + 1 + Z.of_nat (List.length ds))
      with (digits + Z.of_nat (List.length (d :: ds)))
      by (simpl List.length; lia).
    reflexivity.
Qed.

(** [int] reads a text of at most 4300 decimal digits as the number they
    denote, and refuses a longer one. *)
Lemma int_numeral (ds : list Z) :
  ds <> [] -> Forall is_digit ds ->
  PyStr.int (numeral ds)
  = if 4300 <? Z.of_nat (List.length ds) then None
    else Some (decimal_value ds).
Proof.
  intros Hne H. unfold PyStr.int, PyStr.transform_decimal_and_space.
  rewrite (is_ascii_numeral ds H).
  destruct ds as [|d ds]; [congruence|].
  inversion H as [|? ? Hd Hds]; subst.
  unfold PyStr.long_from_string, decimal_value.
  change (numeral (d :: ds)) with (String (digit_char d) (numeral ds)).
  assert (Hskip : PyStr.skip_spaces (String (digit_char d) (numeral ds))
                  = String (digit_char d) (numeral ds))
    by (each_digit d Hd; reflexivity).
  rewrite Hskip.
  assert (Hsign :
    (match String (digit_char d) (numeral ds) with
     | String "+" r => (false, r)
     | String "-" r => (true, r)
     | _ => (false, String (digit_char d) (numeral ds))
     end) = (false, String (digit_char d) (numeral ds)))
    by (each_digit d Hd; reflexivity).
  rewrite Hsign.
  assert (Hstart : PyStr.starts_with_digit
                     (String (digit_char d) (numeral ds)) = true)
    by (simpl; rewrite (digit_value_char d Hd); reflexivity).
  rewrite Hstart.
  change (String (digit_char d) (numeral ds)) with (numeral (d :: ds)).
  rewrite (scan_digits_numeral (d :: ds) 0 0 H), Z.add_0_l.
  unfold PyStr.int_max_str_digits.
  destruct (4300 <? Z.of_nat (List.length (d :: ds))); reflexivity.
Qed.

(** X12. A token made of one or more decimal digits, leading zeros
    included, followed by one character: with at most 4300 digits and the
    unit [m], [h] or [d] it is accepted, and the result is the number that
    the digits denote times 60,000, 3,600,000 or 86,400,000; with more than
    4300 digits it is rejected as an invalid interval, whatever the last
    character. *)
Theorem parse_interval_to_ms_numeral (ds : list Z) :
  ds <> [] -> Forall is_digit ds ->
  ((List.length ds <= 4300)%nat ->
   parse_interval_to_ms (numeral ds ++ "m")%string
   = Ok (decimal_value ds * 60000) /\
   parse_interval_to_ms (numeral ds ++ "h")%string
   = Ok (decimal_value ds * 3600000) /\
   parse_interval_to_ms (numeral ds ++ "d")%string
   = Ok (decimal_value ds * 86400000)) /\
  ((4300 < List.length ds)%nat ->
   forall unit : ascii,
     parse_interval_to_ms (numeral ds ++ String unit "")%string
     = Raise (ValueError (InvalidInterval (numeral ds ++ String unit "")))).
Proof.
  intros Hne H. split; intros Hlen.
  - repeat split; rewrite parse_interval_to_ms_app, (int_numeral ds Hne H);
      (destruct (Z.ltb_spec 4300 (Z.of_nat (List.length ds))) as [?|_];
       [lia|]);
      simpl; f_equal; lia.
  - intros unit. rewrite parse_interval_to_ms_app, (int_numeral ds Hne H).
    destruct (Z.ltb_spec 4300 (Z.of_nat (List.length ds))) as [_|?];
      [reflexivity|lia].
Qed.

Lemma parse_interval_to_ms_numeral_witness :
  parse_interval_to_ms "015m" = Ok 900000 /\
  parse_interval_to_ms "015h" = Ok 54000000 /\
  parse_interval_to_ms "015d" = Ok 1296000000.
Proof.
  destruct (parse_interval_to_ms_numeral [0; 1; 5]) as [H _].
  - discriminate.
  - repeat constructor; unfold is_digit; lia.
  - apply H. simpl. lia.
Defined.

Lemma Ok_inj {A} (a b : A) : Ok a = Ok b <-> a = b.
Proof. split; [intros H; congruence|intros ->; reflexivity]. Qed.

Ltac units_eqb :=
  change (Ascii.eqb "m" "m") with true;
  change (Ascii.eqb "h" "m") with false;
  change (Ascii.eqb "h" "h") with true;
  change (Ascii.eqb "d" "m") with false;
  change (Ascii.eqb "d" "h") with false;
  change (Ascii.eqb "d" "d") with true;
  cbv iota.

(** X13. Whether a token is accepted does not depend on which of the three
    units follows its prefix, and the results agree with the units: the
    same prefix gives with [h] sixty times what it gives with [m], and
    with [d] twenty-four times what it gives with [h]; every result is a
    whole number of minutes. *)
Theorem parse_interval_to_ms_units (prefix : string) :
  (forall v,
      parse_interval_to_ms (prefix ++ "m")%string = Ok v <->
      parse_interval_to_ms (prefix ++ "h")%string = Ok (60 * v)) /\
  (forall v,
      parse_interval_to_ms (prefix ++ "h")%string = Ok v <->
      parse_interval_to_ms (prefix ++ "d")%string = Ok (24 * v)) /\
  (forall token v,
      parse_interval_to_ms token = Ok v -> exists n, v = n * 60000).
Proof.
  split; [|split].
  - intros v. rewrite !parse_interval_to_ms_app.
    destruct (PyStr.int prefix) as [n|]; [|split; discriminate].
    units_eqb. rewrite !Ok_inj. lia.
  - intros v. rewrite !parse_interval_to_ms_app.
    destruct (PyStr.int prefix) as [n|]; [|split; discriminate].
    units_eqb. rewrite !Ok_inj. lia.
  - intros token v H.
    destruct (PyStr.last_char token) as [u|e] eqn:Hu.
    2:{ unfold parse_interval_to_ms in H. rewrite Hu in H. discriminate. }
    rewrite (last_char_split _ _ Hu), parse_interval_to_ms_app in H.
    destruct (PyStr.int (PyStr.but_last token)) as [n|]; [|discriminate].
    destruct (Ascii.eqb u "m");
      [|destruct (Ascii.eqb u "h"); [|destruct (Ascii.eqb u "d")]];
      try discriminate; injection H as <-.
    + exists n. lia.
    + exists (n * 60). lia.
    + exists (n * 1440). lia.
Qed.

(** The exceptions of [parse_interval_to_ms]: [IndexError] for the empty
    token and nothing but [ValueError] for the others. *)
Lemma parse_interval_to_ms_raises (token : string) (e : exn) :
  parse_interval_to_ms token = Raise e ->
  (token = EmptyString /\ e = IndexError) \/
  (token <> EmptyString /\ exists msg, e = ValueError msg).
Proof.
  intros H. destruct token as [|c s].
  - left. split; [reflexivity|]. simpl in H. injection H as <-. reflexivity.
  - right. split; [discriminate|].
    destruct (PyStr.last_char (String c s)) as [u|e'] eqn:Hu.
    + rewrite (last_char_split _ _ Hu), parse_interval_to_ms_app in H.
      destruct (PyStr.int (PyStr.but_last (String c s)));
        [|injection H as <-; eauto].
      destruct (Ascii.eqb u "m"); [discriminate|].
      destruct (Ascii.eqb u "h"); [discriminate|].
      destruct (Ascii.eqb u "d"); [discriminate|].
      injection H as <-. eauto.
    + exfalso. clear H. revert c Hu.
      induction s as [|c1 s1 IH]; intros c0 Hu; [discriminate|].
      eapply IH, Hu.
Qed.

(** ** The orchestrator *)

Section OrchestratorFacts.

Variable DateTime : Type.
Variable strptime : string -> option DateTime.
Variable timestamp : DateTime -> option Q.
Variable fromtimestamp : Clock.

Local Abbreviation stamp := (get_timestamp_ms DateTime strptime timestamp).
Local Abbreviation run := (main DateTime strptime timestamp fromtimestamp).

(** [calculate_poc] with the default number of bins returns a value for a
    series that holds a record. *)
Lemma calculate_poc_default (k : Kline) (klines : list Kline) :
  exists poc, calculate_poc (k :: klines) default_bins = Ok poc.
Proof.
  destruct (calculate_poc_selects (k :: klines) default_bins
              ltac:(discriminate) ltac:(unfold default_bins; lia))
    as (r & i & Hr & _).
  exists r. exact Hr.
Qed.

(** X14. [main] sends a request only when both dates are accepted, the
    interval token is valid, and the start of the start day is before the
    last millisecond of the end day; otherwise it ends without any
    exchange with the provider. *)
Theorem main_requests_need_valid_input (fuel : nat) (server : Endpoint)
  (w : World) (args : Args) (w' : World) (out : Outcome) :
  run fuel server w args = Some (w', out) ->
  w' <> w ->
  exists start_time end_day step,
    stamp (args_start args) = Millis start_time /\
    stamp (args_end args) = Millis end_day /\
    parse_interval_to_ms (args_interval args) = Ok step /\
    start_time < end_day + 86400000 - 1.
Proof.
  unfold main. intros H Hw.
  destruct (stamp (args_start args)) as [ts|s];
    [|injection H as <- _; congruence].
  destruct (stamp (args_end args)) as [te|s];
    [|injection H as <- _; congruence].
  cbv zeta in H.
  destruct (get_binance_klines fuel fromtimestamp server w (args_symbol args)
              (args_interval args) ts (te + 24 * 60 * 60 * 1000 - 1))
    as [[w1 r]|] eqn:E; [|discriminate].
  assert (Hw1 : w1 = w').
  { destruct r as [[|k klines]|e]; injection H as <- _; reflexivity. }
  subst w1. clear H.
  apply get_binance_klines_trace in E
    as [(e & _ & -> & _)|(step & w_new & Hp & -> & Hch & _ & _)];
    [congruence|].
  exists ts, te, step. repeat split; auto.
  destruct w_new as [|[p resp] w_new]; [rewrite app_nil_r in Hw; congruence|].
  simpl in Hch. destruct Hch as (_ & Hc & _). lia.
Qed.

(** X15. The ways [main] can end. It reports no data only for an empty
    download, and prints a Point of Control only for a download that holds
    records, the one [calculate_poc] gives with 500 bins. It exits with
    status 1 for a rejected date and for the exceptions that its [except]
    clause handles: a [ValueError] of the interval token (no request made),
    a failure of the provider, or the [ValueError] of the date conversion
    of line 78 (after a request). An exception of the download leaves
    [main] when it is the [IndexError] of the empty interval token (no
    request made) or the [OverflowError] or [OSError] of the date
    conversion of line 78 (after a request). An exception of
    [calculate_poc] would be treated by the same clause. *)
Theorem main_outcome (fuel : nat) (server : Endpoint) (w : World)
  (args : Args) (w' : World) (out : Outcome) :
  run fuel server w args = Some (w', out) ->
  match out with
  | Exit1 (DateFailure s) =>
      w' = w /\
      (stamp (args_start args) = InvalidDate s \/
       stamp (args_end args) = InvalidDate s)
  | _ =>
      exists start_time end_day,
        stamp (args_start args) = Millis start_time /\
        stamp (args_end args) = Millis end_day /\
        let download :=
          get_binance_klines fuel fromtimestamp server w (args_symbol args)
            (args_interval args) start_time (end_day + 86400000 - 1) in
        let poc_raises e :=
          exists klines,
            download = Some (w', Ok klines) /\
            calculate_poc klines default_bins = Raise e in
        match out with
        | NoData => download = Some (w', Ok [])
        | Results poc _ _ =>
            exists klines,
              klines <> [] /\ download = Some (w', Ok klines) /\
              calculate_poc klines default_bins = Ok poc
        | Exit1 (Raised e) =>
            main_catches e = true /\
            ((download = Some (w', Raise e) /\
              ((exists msg, e = ValueError msg /\ w' = w) \/
               (exists why, e = RequestException why /\ w' <> w) \/
               (e = ValueError YearOutOfRange /\ w' <> w))) \/
             poc_raises e)
        | Uncaught e =>
            main_catches e = false /\
            ((download = Some (w', Raise e) /\
              ((args_interval args = EmptyString /\ e = IndexError /\
                w' = w) \/
               ((e = OverflowError \/ e = OSError) /\ w' <> w))) \/
             poc_raises e)
        | Exit1 (DateFailure _) => True
        end
  end.
Proof.
  unfold main. intros H.
  destruct (stamp (args_start args)) as [ts|s] eqn:Es.
  2:{ injection H as <- <-. auto. }
  destruct (stamp (args_end args)) as [te|s] eqn:Ee.
  2:{ injection H as <- <-. auto. }
  cbv zeta in H.
  change (te + 24 * 60 * 60 * 1000 - 1) with (te + 86400000 - 1) in H.
  destruct (get_binance_klines fuel fromtimestamp server w (args_symbol args)
              (args_interval args) ts (te + 86400000 - 1))
    as [[w1 r]|] eqn:E; [|discriminate].
  assert (Hraise : forall e, r = Raise e ->
            (exists msg, e = ValueError msg /\ w1 = w) \/
            (args_interval args = EmptyString /\ e = IndexError /\ w1 = w) \/
            (exists why, e = RequestException why /\ w1 <> w) \/
            (exists t, e = time_error t /\ w1 <> w)).
  { assert (Hne : forall (w0 : World) x, w ++ w0 ++ [x] <> w).
    { intros w0 x Heq. rewrite <- (app_nil_r w) in Heq at 2.
      apply app_inv_head in Heq. destruct w0; discriminate. }
    intros e ->. apply get_binance_klines_trace in E
      as [(e' & Hp & -> & He)|(step & w_new & _ & -> & _ & Hend & _)].
    - injection He as <-.
      apply parse_interval_to_ms_raises in Hp
        as [[Ht ->]|[_ (msg & ->)]].
      + right. left. auto.
      + left. eauto.
    - destruct Hend as [(w0 & p & why & -> & ->)
                       |(w0 & p & d & l & t & -> & _ & _ & ->)].
      + right. right. left. exists why. split; [reflexivity|]. apply Hne.
      + right. right. right. exists t. split; [reflexivity|]. apply Hne. }
  destruct r as [[|k klines]|e].
  - injection H as <- <-. exists ts, te. auto.
  - destruct (calculate_poc_default k klines) as (poc & Hpoc).
    rewrite Hpoc in H. injection H as <- <-.
    exists ts, te. split; [reflexivity|]. split; [reflexivity|].
    exists (k :: klines). split; [discriminate|]. auto.
  - unfold handle in H.
    destruct (Hraise e eq_refl)
      as [(msg & -> & ->)|[(Hi & -> & ->)|[(why & -> & Hw)|(t & -> & Hw)]]].
    + injection H as <- <-. exists ts, te. split; [reflexivity|].
      split; [reflexivity|]. cbv zeta. split; [reflexivity|]. left.
      split; [exact E|]. left. eauto.
    + injection H as <- <-. exists ts, te. split; [reflexivity|].
      split; [reflexivity|]. cbv zeta. split; [reflexivity|]. left.
      split; [exact E|]. left. auto.
    + injection H as <- <-. exists ts, te. split; [reflexivity|].
      split; [reflexivity|]. cbv zeta. split; [reflexivity|]. left.
      split; [exact E|]. right. left. eauto.
    + destruct t; injection H as <- <-; exists ts, te;
        (split; [reflexivity|]); (split; [reflexivity|]); cbv zeta;
        (split; [reflexivity|]); left; (split; [exact E|]); auto.
Qed.

Lemma quotient_sign_pos (q prev d : Q) :
  (q * prev == d)%Q -> (0 < prev)%Q -> ((0 <= q * 100)%Q <-> (0 <= d)%Q).
Proof. intros H Hp. split; intros H1; nra. Qed.

Lemma quotient_sign_neg (q prev d : Q) :
  (q * prev == d)%Q -> (prev < 0)%Q -> ((0 <= q * 100)%Q <-> (d <= 0)%Q).
Proof. intros H Hp. split; intros H1; nra. Qed.

(** X16. The colour and the percentage that [main] prints. For a previous
    value of 0 the change is infinite and green, whatever the Point of
    Control; otherwise it is [(poc - prev) / prev * 100]; for a positive
    previous value it is green exactly when the Point of Control has not
    fallen, and for a negative one exactly when it has not risen. *)
Theorem main_colour (fuel : nat) (server : Endpoint) (w : World)
  (args : Args) (w' : World) (poc : Q) (pct : Pct) (color : Color) :
  run fuel server w args = Some (w', Results poc pct color) ->
  let prev := args_prev_poc args in
  ((prev == 0)%Q -> pct = Infinity /\ color = COLOR_GREEN) /\
  (~ (prev == 0)%Q -> pct = Finite ((poc - prev) / prev * 100)%Q) /\
  ((0 < prev)%Q -> (color = COLOR_GREEN <-> (prev <= poc)%Q)) /\
  ((prev < 0)%Q -> (color = COLOR_GREEN <-> (poc <= prev)%Q)).
Proof.
  intros H prev. unfold main in H.
  destruct (stamp (args_start args)) as [ts|s]; [|discriminate].
  destruct (stamp (args_end args)) as [te|s]; [|discriminate].
  cbv zeta in H.
  destruct (get_binance_klines fuel fromtimestamp server w (args_symbol args)
              (args_interval args) ts (te + 24 * 60 * 60 * 1000 - 1))
    as [[w1 r]|]; [|discriminate].
  destruct r as [[|k klines]|e]; [discriminate| |].
  2:{ unfold handle in H. destruct (main_catches e); discriminate. }
  destruct (calculate_poc (k :: klines) default_bins) as [poc'|e].
  2:{ unfold handle in H. destruct (main_catches e); discriminate. }
  fold prev in H.
  destruct (Qeq_bool prev 0) eqn:E; simpl in H; injection H as _ <- <- <-.
  - apply Qeq_bool_iff in E. repeat split; try (intros; lra).
  - apply Qeq_bool_neq in E.
    split; [intros; contradiction|]. split; [reflexivity|].
    assert (Hq : ((poc' - prev) / prev * prev == poc' - prev)%Q)
      by (field; exact E).
    set (q := ((poc' - prev) / prev)%Q) in *. clearbody q.
    split; intros Hs.
    + destruct (Qle_bool 0 (q * 100)) eqn:Eb.
      * apply Qle_bool_iff in Eb. split; [intros _|reflexivity].
        apply (quotient_sign_pos q prev _ Hq Hs) in Eb. lra.
      * split; [discriminate|]. intros Hle. exfalso.
        apply not_true_iff_false in Eb. apply Eb, Qle_bool_iff.
        apply (quotient_sign_pos q prev _ Hq Hs). lra.
    + destruct (Qle_bool 0 (q * 100)) eqn:Eb.
      * apply Qle_bool_iff in Eb. split; [intros _|reflexivity].
        apply (quotient_sign_neg q prev _ Hq Hs) in Eb. lra.
      * split; [discriminate|]. intros Hle. exfalso.
        apply not_true_iff_false in Eb. apply Eb, Qle_bool_iff.
        apply (quotient_sign_neg q prev _ Hq Hs). lra.
Qed.

(** X17. When the end day is over before the start day begins and the
    interval token is valid, [main] makes no request and reports no data
    (a warning, status 0): reversed dates are not an error. *)
Theorem main_reversed_dates (fuel : nat) (server : Endpoint) (w : World)
  (args : Args) (start_time end_day step : Z) :
  stamp (args_start args) = Millis start_time ->
  stamp (args_end args) = Millis end_day ->
  parse_interval_to_ms (args_interval args) = Ok step ->
  end_day + 86400000 - 1 <= start_time ->
  run (S fuel) server w args = Some (w, NoData).
Proof.
  intros Hs He Hp Hle. unfold main. rewrite Hs, He. cbv zeta.
  unfold get_binance_klines. rewrite Hp. simpl fetch_loop.
  unfold loop_body.
  change (24 * 60 * 60 * 1000) with 86400000.
  destruct (Z.ltb_spec start_time (end_day + 86400000 - 1));
    [lia|reflexivity].
Qed.

End OrchestratorFacts.

(** The sample query for the first of January 2024. *)
Lemma main_requests_need_valid_input_witness :
  exists start_time end_day step,
    get_timestamp_ms Z sample_strptime sample_timestamp
      (args_start sample_args) = Millis start_time /\
    get_timestamp_ms Z sample_strptime sample_timestamp
      (args_end sample_args) = Millis end_day /\
    parse_interval_to_ms (args_interval sample_args) = Ok step /\
    start_time < end_day + 86400000 - 1.
Proof.
  destruct (main Z sample_strptime sample_timestamp
              utc_fromtimestamp 5 january_server [] sample_args) as [[w' out]|] eqn:E;
    [|vm_compute in E; discriminate].
  apply (main_requests_need_valid_input Z sample_strptime sample_timestamp
           utc_fromtimestamp 5 january_server [] sample_args w' out E).
  intros ->. vm_compute in E. discriminate.
Defined.

Lemma main_outcome_witness :
  match main Z sample_strptime sample_timestamp
          utc_fromtimestamp 5 january_server [] sample_args with
  | Some (w', Results poc _ _) =>
      exists start_time end_day,
        get_timestamp_ms Z sample_strptime sample_timestamp
          (args_start sample_args) = Millis start_time /\
        get_timestamp_ms Z sample_strptime sample_timestamp
          (args_end sample_args) = Millis end_day /\
        exists klines,
          klines <> [] /\
          get_binance_klines 5 utc_fromtimestamp january_server []
            (args_symbol sample_args) (args_interval sample_args)
            start_time (end_day + 86400000 - 1)
          = Some (w', Ok klines) /\
          calculate_poc klines default_bins = Ok poc
  | _ => False
  end.
Proof.
  destruct (main Z sample_strptime sample_timestamp
              utc_fromtimestamp 5 january_server [] sample_args) as [[w' [|poc pct color|why|e]]|] eqn:E;
    try (vm_compute in E; discriminate).
  exact (main_outcome Z sample_strptime sample_timestamp
           utc_fromtimestamp 5 january_server [] sample_args w' (Results poc pct color) E).
Defined.

Lemma main_colour_witness :
  match main Z sample_strptime sample_timestamp
          utc_fromtimestamp 5 january_server [] sample_args with
  | Some (w', Results poc pct color) =>
      ((40000 == 0)%Q -> pct = Infinity /\ color = COLOR_GREEN) /\
      (~ (40000 == 0)%Q -> pct = Finite ((poc - 40000) / 40000 * 100)%Q) /\
      ((0 < 40000)%Q -> (color = COLOR_GREEN <-> (40000 <= poc)%Q)) /\
      ((40000 < 0)%Q -> (color = COLOR_GREEN <-> (poc <= 40000)%Q))
  | _ => False
  end.
Proof.
  destruct (main Z sample_strptime sample_timestamp
              utc_fromtimestamp 5 january_server [] sample_args) as [[w' [|poc pct color|why|e]]|] eqn:E;
    try (vm_compute in E; discriminate).
  exact (main_colour Z sample_strptime sample_timestamp
           utc_fromtimestamp 5 january_server [] sample_args w' poc pct color E).
Defined.

Lemma main_reversed_dates_witness :
  main Z sample_strptime sample_timestamp utc_fromtimestamp 1
    january_server [] reversed_args
  = Some ([], NoData).
Proof.
  apply (main_reversed_dates Z sample_strptime sample_timestamp
      utc_fromtimestamp 0
           january_server [] reversed_args 1704153600000 1704067200000
           3600000).
  - reflexivity.
  - reflexivity.
  - reflexivity.
  - lia.
Defined.
